(** * distributed/diagnostics.py: progress tracking over a task scheduler

    A shallow embedding of [dependent_keys], [Progress], [key_split],
    [MultiProgress], [format_time] and the [_update] methods of the text
    and widget progress bars, the properties of the specification that
    concern them, and further properties of the code. *)

From Stdlib Require Import ZArith QArith Floats SpecFloat.
From stdpp Require Import gmap strings list fin_maps pretty.
From Equations Require Import Equations.

Set Warnings "-inexact-float,-register-all,-clear-no-such-hyp".
Local Open Scope Z_scope.
Local Open Scope nat_scope.

(** * Part I: the program *)

(** ** Task keys

    dask keys are hashable Python values: strings, tuples whose first
    component names the task family, and occasionally numbers or [None]. *)

Inductive Key : Type :=
| KNone
| KInt (z : Z)
| KStr (s : string)
| KTuple (ks : list Key).

Module KeyCode.

Fixpoint enc (k : Key) : gen_tree (Z + string) :=
  match k with
  | KNone => GenNode 0 []
  | KInt z => GenLeaf (inl z)
  | KStr s => GenLeaf (inr s)
  | KTuple ks => GenNode 1 (map enc ks)
  end.

Fixpoint dec (t : gen_tree (Z + string)) : Key :=
  match t with
  | GenLeaf (inl z) => KInt z
  | GenLeaf (inr s) => KStr s
  | GenNode 0 _ => KNone
  | GenNode _ ts => KTuple (map dec ts)
  end.

Fixpoint dec_enc (k : Key) : dec (enc k) = k :=
  match k with
  | KNone => eq_refl
  | KInt z => eq_refl
  | KStr s => eq_refl
  | KTuple ks =>
      f_equal KTuple
        ((fix go (l : list Key) : map dec (map enc l) = l :=
            match l with
            | [] => eq_refl
            | x :: l' => f_equal2 cons (dec_enc x) (go l')
            end) ks)
  end.

Lemma enc_inj : Inj (=) (=) enc.
Proof.
  intros x y Hxy.
  rewrite <- (dec_enc x), <- (dec_enc y). by rewrite Hxy.
Qed.

End KeyCode.

#[global] Instance key_eq_dec : EqDecision Key.
Proof.
  intros x y.
  destruct (decide (KeyCode.enc x = KeyCode.enc y)) as [E|E].
  - left. by apply KeyCode.enc_inj.
  - right. intros ->. by apply E.
Defined.

#[global] Instance key_countable : Countable Key :=
  inj_countable' KeyCode.enc KeyCode.dec KeyCode.dec_enc.

(** Workers are named by their address. *)
Abbreviation worker := string (only parsing).

(** ** dependent_keys *)

Section DependentKeys.

(** The scheduler state [dependent_keys] reads.  [who_has] maps a key to
    the set of workers holding its result; [processing] and [stacks] are
    only tested with [in], so they are modelled by the set of objects for
    which that test succeeds; [dependencies] maps a key to an iterable of
    keys. *)
Variable who_has : gmap Key (gset worker).
Variable processing : gset Key.
Variable stacks : gset Key.
Variable dependencies : gmap Key (list Key).

(** [who_has.get(key)]: truthy when the entry exists and is non-empty. *)
Definition who_has_get (k : Key) : bool :=
  match who_has !! k with
  | Some ws => bool_decide (ws ≠ ∅)
  | None => false
  end.

(** [who_has.get(key) or key in processing or key in stacks] *)
Definition satisfied (k : Key) : bool :=
  who_has_get k || bool_decide (k ∈ processing) || bool_decide (k ∈ stacks).

(** [dependencies.get(key, [])] *)
Definition dependencies_get (k : Key) : list Key :=
  default [] (dependencies !! k).

(** Termination measure of the [while stack:] loop: the stack length, plus
    for every key of [dependencies] not yet in [out] one more than the
    number of its dependencies. *)
Definition pending_weight (l : list (Key * list Key)) (out : gset Key) : nat :=
  sum_list (map (λ kd : Key * list Key,
                   if decide (kd.1 ∈ out) then 0 else S (length kd.2)) l).

Definition loop_measure (out : gset Key) (stack : list Key) : nat :=
  length stack + pending_weight (map_to_list dependencies) out.

Lemma pending_weight_mono l k out :
  pending_weight l ({[k]} ∪ out) ≤ pending_weight l out.
Proof.
  unfold pending_weight. induction l as [|[k' ds] l IH]; simpl; [lia|].
  repeat case_decide; try lia. set_solver.
Qed.

Lemma pending_weight_add l k ds out :
  (k, ds) ∈ l → k ∉ out →
  pending_weight l ({[k]} ∪ out) + S (length ds) ≤ pending_weight l out.
Proof.
  unfold pending_weight. induction l as [|[k' ds'] l IH]; intros Hin Hk.
  - by apply elem_of_nil in Hin.
  - apply elem_of_cons in Hin as [Heq|Hin]; simpl.
    + inversion Heq; subst k' ds'.
      pose proof (pending_weight_mono l k out) as Hm.
      unfold pending_weight in Hm.
      rewrite decide_True by set_solver. rewrite decide_False by done. lia.
    + specialize (IH Hin Hk). repeat case_decide; try lia. set_solver.
Qed.

Lemma loop_measure_skip out k stack :
  loop_measure out stack < loop_measure out (k :: stack).
Proof. unfold loop_measure. simpl. lia. Qed.

Lemma loop_measure_visit out k stack :
  k ∉ out →
  loop_measure ({[k]} ∪ out) (reverse (dependencies_get k) ++ stack)
  < loop_measure out (k :: stack).
Proof.
  intros Hk. unfold loop_measure, dependencies_get.
  rewrite length_app, length_reverse. simpl.
  destruct (dependencies !! k) as [ds|] eqn:E; simpl.
  - apply elem_of_map_to_list in E.
    pose proof (pending_weight_add _ _ _ _ E Hk). lia.
  - pose proof (pending_weight_mono (map_to_list dependencies) k out). lia.
Qed.

(** The [while stack:] loop.  The Python list [stack] is held from its
    end: the head of the Rocq list is the element [stack.pop()] returns,
    and [stack.extend(ds)] is [reverse ds ++ stack]. *)
Equations? dependent_keys_loop (complete : bool) (out : gset Key)
    (stack : list Key) : gset Key
    by wf (loop_measure out stack) lt :=
  dependent_keys_loop complete out [] := out;
  dependent_keys_loop complete out (k :: stack) with decide (k ∈ out) => {
    | left _ := dependent_keys_loop complete out stack;
    | right _ with negb complete && satisfied k => {
      | true := dependent_keys_loop complete out stack;
      | false := dependent_keys_loop complete ({[k]} ∪ out)
                   (reverse (dependencies_get k) ++ stack) } }.
Proof.
  all: first [ apply loop_measure_skip | by apply loop_measure_visit ].
Qed.

(** [dependent_keys(keys, who_has, processing, stacks, dependencies,
    complete)], with [keys] given in iteration order. *)
Definition dependent_keys (keys : list Key) (complete : bool) : gset Key :=
  dependent_keys_loop complete ∅ (reverse keys).

End DependentKeys.

(** ** Python values passed as the [exception] argument

    [stop] only tests the truthiness of its [exception] argument; [start]
    passes [True], the scheduler passes the exception raised by the task. *)

Inductive pyobj : Type :=
| PyNone
| PyBool (b : bool)
| PyInt (z : Z)
| PyStr (s : string)
| PyException (msg : string).

Definition truthy (o : pyobj) : bool :=
  match o with
  | PyNone => false
  | PyBool b => b
  | PyInt z => negb (Z.eqb z 0)
  | PyStr s => negb (String.eqb s "")
  | PyException _ => true
  end.

(** ** Exceptions and outcomes *)

Inductive exn : Type :=
| ValueError_no_scheduler
    (* "Can not find scheduler. ..." *)
| ValueError_keys_not_found (named : gset Key)
    (* "Keys not found: %s" % str(named) *)
| IndexError
| ZeroDivisionError
| OverflowError
| Exception (msg : string).

(** What running a piece of the program yields: a value, a propagating
    exception, or [Blocked] when the recorded environment ends while the
    program is still waiting on it. *)
Inductive outcome (A : Type) : Type :=
| Returns (a : A)
| Raises (e : exn)
| Blocked.
Arguments Returns {A} a.
Arguments Raises {A} e.
Arguments Blocked {A}.

(** Sequencing in [outcome]: [x ← e; k] runs [k] on the value [e] returns
    and stops at the first exception. *)
Definition outcome_bind {A B} (m : outcome A) (k : A → outcome B) : outcome B :=
  match m with
  | Returns a => k a
  | Raises e => Raises e
  | Blocked => Blocked
  end.

#[global] Instance outcome_ret : MRet outcome := @Returns.
#[global] Instance outcome_mbind : MBind outcome :=
  λ A B k m, outcome_bind m k.

(** ** The scheduler, as far as this module touches it *)

Record Scheduler : Type := {
  dask : gset Key;                    (* keys of the task graph *)
  in_play : gset Key;
  who_has : gmap Key (gset worker);
  processing : gset Key;
  stacks : gset Key;
  waiting : gmap Key (list Key);
  exceptions_blame : gset Key;
  diagnostics : list nat              (* registered plugins, by identity *)
}.

Definition set_diagnostics (d : list nat) (s : Scheduler) : Scheduler :=
  {| dask := dask s; in_play := in_play s; who_has := who_has s;
     processing := processing s; stacks := stacks s; waiting := waiting s;
     exceptions_blame := exceptions_blame s; diagnostics := d |}.

(** Modelled from the spec: [Scheduler.add_diagnostic] is not part of this
    module; the scheduler keeps "a mutable ordered collection of registered
    plugins supporting add/remove", so adding appends. *)
Definition add_diagnostic (plugin : nat) (s : Scheduler) : Scheduler :=
  set_diagnostics (diagnostics s ++ [plugin]) s.

(** [list.remove(x)]: drops the first occurrence. *)
Fixpoint list_remove (x : nat) (l : list nat) : list nat :=
  match l with
  | [] => []
  | y :: l' => if decide (x = y) then l' else y :: list_remove x l'
  end.

(** ** Progress *)

(** A target is a key or a future carrying one
    ([k.key if hasattr(k, 'key') else k]). *)
Inductive target : Type :=
| Bare (k : Key)
| Future (k : Key).

Definition target_key (t : target) : Key :=
  match t with Bare k => k | Future k => k end.

(** The attributes of a [Progress] object.  [C] is the type of the [keys]
    and [all_keys] attributes: a set of keys for [Progress], a dict of sets
    for [MultiProgress].  [self_id] stands for the identity of the object;
    [self.scheduler] is the scheduler that is threaded through the
    operations below. *)
Record Progress (C : Type) : Type := {
  self_id : nat;
  _start_time : Q;
  _minimum : Q;
  _dt : Q;
  last_duration : Q;
  keys : C;
  _running : bool;
  all_keys : C;
  status : option string
}.
Arguments self_id {C} _.
Arguments _start_time {C} _.
Arguments _minimum {C} _.
Arguments _dt {C} _.
Arguments last_duration {C} _.
Arguments keys {C} _.
Arguments _running {C} _.
Arguments all_keys {C} _.
Arguments status {C} _.

Definition set_status {C} (st : option string) (p : Progress C) : Progress C :=
  {| self_id := self_id p; _start_time := _start_time p;
     _minimum := _minimum p; _dt := _dt p; last_duration := last_duration p;
     keys := keys p; _running := _running p; all_keys := all_keys p;
     status := st |}.

Definition set_keys {C} (ks : C) (p : Progress C) : Progress C :=
  {| self_id := self_id p; _start_time := _start_time p;
     _minimum := _minimum p; _dt := _dt p; last_duration := last_duration p;
     keys := ks; _running := _running p; all_keys := all_keys p;
     status := status p |}.

(** The environment of a constructor call: the reading of [time.time()]
    before the loop, of [default_timer()] after it, and what each
    [time.sleep(0.01)] returns to: the next reading of [time.time()] and the
    state the scheduler has reached meanwhile.  Clock readings are seconds,
    taken as rationals: the loop only adds one to a reading and compares. *)
Record Env : Type := {
  time_start : Q;
  polls : list (Q * Scheduler);
  timer_start : Q
}.

(** [if scheduler is None: ... default_executor() ...] *)
Definition find_scheduler (scheduler default_executor : option Scheduler)
  : outcome Scheduler :=
  match scheduler with
  | Some s => Returns s
  | None =>
      match default_executor with
      | None => Raises ValueError_no_scheduler
      | Some s => Returns s
      end
  end.

(** The [while not keys.issubset(scheduler.dask)] loop. *)
Fixpoint wait_for_keys (keys : gset Key) (start : Q) (scheduler : Scheduler)
    (polls : list (Q * Scheduler)) : outcome Scheduler :=
  if decide (keys ⊆ dask scheduler) then Returns scheduler
  else
    match polls with
    | [] => Blocked
    | (now, scheduler') :: polls' =>
        if Qlt_le_dec (start + 1) now
        then Raises (ValueError_keys_not_found (keys ∖ in_play scheduler'))
        else wait_for_keys keys start scheduler' polls'
    end.

(** The inner function [f] of [Progress.__init__], run on the scheduler's
    thread either directly or through [sync]. *)
Definition Progress_init_f (keys : gset Key) (self : Progress (gset Key))
    (scheduler : Scheduler) : Progress (gset Key) * Scheduler :=
  let scheduler' := add_diagnostic (self_id self) scheduler in
  let ks := dependent_keys (who_has scheduler') (processing scheduler')
              (stacks scheduler') (waiting scheduler') (elements keys) false in
  ({| self_id := self_id self; _start_time := _start_time self;
      _minimum := _minimum self; _dt := _dt self;
      last_duration := last_duration self;
      keys := ks; _running := _running self;
      all_keys := ks ∪ keys; status := status self |},
   scheduler').

(** [Progress.__init__(self, keys, scheduler, minimum, dt)] *)
Definition Progress_init (self : nat) (keys : list target)
    (scheduler default_executor : option Scheduler) (minimum dt : Q)
    (env : Env) : outcome (Progress (gset Key) * Scheduler) :=
  let keys : gset Key := list_to_set (target_key <$> keys) in
  scheduler ← find_scheduler scheduler default_executor;
  scheduler ← wait_for_keys keys (time_start env) scheduler (polls env);
  let self0 :=
    {| self_id := self; _start_time := timer_start env;
       _minimum := minimum; _dt := dt; last_duration := 0%Q;
       keys := ∅; _running := false; all_keys := ∅;
       status := None |} in
  let '(self1, scheduler) := Progress_init_f keys self0 scheduler in
  Returns (set_status None self1, scheduler).

(** [Progress.stop(self, exception=None, key=None)] *)
Definition stop {C} (exception : pyobj) (key : option Key)
    (st : Progress C * Scheduler) : Progress C * Scheduler :=
  let '(self, scheduler) := st in
  let scheduler :=
    if decide (self_id self ∈ diagnostics scheduler)
    then set_diagnostics (list_remove (self_id self) (diagnostics scheduler))
           scheduler
    else scheduler in
  if truthy exception
  then (set_status (Some "error"%string) self, scheduler)
  else (set_status (Some "finished"%string) self, scheduler).

(** [Progress.start(self)]; [_start] does nothing in [Progress]. *)
Definition start (st : Progress (gset Key) * Scheduler)
  : Progress (gset Key) * Scheduler :=
  let '(self, scheduler) := st in
  if decide (keys self = ∅) then stop PyNone None st
  else if decide (keys self ⊆ exceptions_blame scheduler)
       then stop (PyBool true) None st
       else st.

(** [Progress.task_finished(self, scheduler, key, worker, nbytes)] *)
Definition task_finished (key : Key) (worker : worker) (nbytes : Z)
    (st : Progress (gset Key) * Scheduler) : Progress (gset Key) * Scheduler :=
  let '(self, scheduler) := st in
  let self :=
    if decide (key ∈ keys self) then set_keys (keys self ∖ {[key]}) self
    else self in
  if decide (keys self = ∅) then stop PyNone None (self, scheduler)
  else (self, scheduler).

(** [Progress.task_erred(self, scheduler, key, worker, exception)] *)
Definition task_erred (key : Key) (worker : worker) (exception : pyobj)
    (st : Progress (gset Key) * Scheduler) : Progress (gset Key) * Scheduler :=
  if decide (key ∈ all_keys st.1) then stop exception (Some key) st
  else st.

(** The callbacks the scheduler delivers to a registered plugin. *)
Inductive event : Type :=
| TaskFinished (key : Key) (worker : worker) (nbytes : Z)
| TaskErred (key : Key) (worker : worker) (exception : pyobj).

Definition deliver (ev : event) (st : Progress (gset Key) * Scheduler)
  : Progress (gset Key) * Scheduler :=
  match ev with
  | TaskFinished k w n => task_finished k w n st
  | TaskErred k w e => task_erred k w e st
  end.

Definition deliver_all (evs : list event)
    (st : Progress (gset Key) * Scheduler) : Progress (gset Key) * Scheduler :=
  foldl (λ st ev, deliver ev st) st evs.

(** Modelled from the spec: the scheduler's own code is not part of this
    module.  The callbacks are "invoked exclusively by the scheduler", which
    keeps "a mutable ordered collection of registered plugins supporting
    add/remove, against which callbacks are dispatched", and a callback is
    called "while the plugin is registered": an event reaches the tracker
    only while it is on [scheduler.diagnostics]. *)
Definition dispatch (ev : event) (st : Progress (gset Key) * Scheduler)
  : Progress (gset Key) * Scheduler :=
  if decide (self_id st.1 ∈ diagnostics st.2) then deliver ev st else st.

(** What happens to a tracker once it is constructed: its owner calls
    [start], and the scheduler dispatches events, in any order. *)
Inductive action : Type :=
| Start
| Callback (ev : event).

Definition act (a : action) (st : Progress (gset Key) * Scheduler)
  : Progress (gset Key) * Scheduler :=
  match a with
  | Start => start st
  | Callback ev => dispatch ev st
  end.

Definition lifetime (acts : list action)
    (st : Progress (gset Key) * Scheduler) : Progress (gset Key) * Scheduler :=
  foldl (λ st a, act a st) st acts.

(** ** key_split *)

(** [s.rsplit('-', 1)] splits at the last hyphen (character 45):
    [rsplit_hyphen s] is the part before it, or [None] when [s] has no
    hyphen. *)
Fixpoint rsplit_hyphen (s : string) : option string :=
  match s with
  | EmptyString => None
  | String c s' =>
      match rsplit_hyphen s' with
      | Some prefix => Some (String c prefix)
      | None =>
          if Ascii.eqb c (Ascii.ascii_of_nat 45) then Some EmptyString
          else None
      end
  end.

(** [key_split(s)].  A tuple is replaced by its first element, and [s[0]]
    raises [IndexError] on the empty tuple, outside the [try]; a value
    without [rsplit] falls into the bare [except]. *)
Fixpoint key_split (s : Key) : outcome string :=
  match s with
  | KTuple [] => Raises IndexError
  | KTuple (s0 :: _) => key_split s0
  | KStr s => Returns (default s (rsplit_hyphen s))
  | KNone | KInt _ => Returns "Other"%string
  end.

(** ** MultiProgress *)

Section MultiProgress.

Context {label : Type} `{Countable label}.

(** [self.func]: a Python callable, which may raise. *)
Variable func : Key → outcome label.

(** [toolz.groupby(func, seq)]: a dict from each value of [func] to the
    list of the items it was taken on, in order of appearance. *)
Fixpoint groupby_from (d : gmap label (list Key)) (seq : list Key)
  : outcome (gmap label (list Key)) :=
  match seq with
  | [] => Returns d
  | item :: seq' =>
      match func item with
      | Returns l => groupby_from (<[l := default [] (d !! l) ++ [item]]> d) seq'
      | Raises e => Raises e
      | Blocked => Blocked
      end
  end.

Definition groupby (seq : list Key) : outcome (gmap label (list Key)) :=
  groupby_from ∅ seq.

(** [valmap(set, d)] *)
Definition valmap_set (d : gmap label (list Key)) : gmap label (gset Key) :=
  list_to_set <$> d.

Definition with_keys {C D} (ks all : D) (p : Progress C) : Progress D :=
  {| self_id := self_id p; _start_time := _start_time p;
     _minimum := _minimum p; _dt := _dt p; last_duration := last_duration p;
     keys := ks; _running := _running p; all_keys := all;
     status := status p |}.

(** The last two statements of [MultiProgress.__init__]:
    [self.keys = valmap(set, groupby(self.func, self.keys))], and the
    same for [self.all_keys]. *)
Definition regroup (self : Progress (gset Key))
  : outcome (Progress (gmap label (gset Key))) :=
  gk ← groupby (elements (keys self));
  ga ← groupby (elements (all_keys self));
  Returns (with_keys (valmap_set gk) (valmap_set ga) self).

(** [MultiProgress.__init__(self, keys, scheduler, func, minimum, dt)] *)
Definition MultiProgress_init (self : nat) (keys : list target)
    (scheduler default_executor : option Scheduler) (minimum dt : Q)
    (env : Env) : outcome (Progress (gmap label (gset Key)) * Scheduler) :=
  '(self, scheduler) ←
    Progress_init self keys scheduler default_executor minimum dt env;
  self ← regroup self;
  Returns (self, scheduler).

(** [any(self.keys.values())] *)
Definition any_values (d : gmap label (gset Key)) : bool :=
  bool_decide (map_Exists (λ _ s, s ≠ ∅) d).

(** [MultiProgress.task_finished(self, scheduler, key, worker, nbytes)] *)
Definition multi_task_finished (key : Key) (worker : worker) (nbytes : Z)
    (st : Progress (gmap label (gset Key)) * Scheduler)
  : outcome (Progress (gmap label (gset Key)) * Scheduler) :=
  let '(self, scheduler) := st in
  l ← func key;
  let self :=
    match keys self !! l with
    | Some s =>
        if decide (s ≠ ∅ ∧ key ∈ s)
        then set_keys (<[l := s ∖ {[key]}]> (keys self)) self
        else self
    | None => self
    end in
  if bool_decide (keys self = ∅) || negb (any_values (keys self))
  then Returns (stop PyNone None (self, scheduler))
  else Returns (self, scheduler).

(** [MultiProgress.task_erred(self, scheduler, key, worker, exception)] *)
Definition multi_task_erred (key : Key) (worker : worker)
    (exception : pyobj) (st : Progress (gmap label (gset Key)) * Scheduler)
  : outcome (Progress (gmap label (gset Key)) * Scheduler) :=
  l ← func key;
  match all_keys st.1 !! l with
  | Some s =>
      if decide (key ∈ s) then Returns (stop exception (Some key) st)
      else Returns st
  | None => Returns st
  end.

Definition multi_deliver (ev : event)
    (st : Progress (gmap label (gset Key)) * Scheduler)
  : outcome (Progress (gmap label (gset Key)) * Scheduler) :=
  match ev with
  | TaskFinished k w n => multi_task_finished k w n st
  | TaskErred k w e => multi_task_erred k w e st
  end.

Fixpoint multi_deliver_all (evs : list event)
    (st : Progress (gmap label (gset Key)) * Scheduler)
  : outcome (Progress (gmap label (gset Key)) * Scheduler) :=
  match evs with
  | [] => Returns st
  | ev :: evs' =>
      match multi_deliver ev st with
      | Returns st' => multi_deliver_all evs' st'
      | Raises e => Raises e
      | Blocked => Blocked
      end
  end.

End MultiProgress.

(** ** format_time

    [format_time] receives an [int] or a [float]; the arithmetic below is
    Python's: integer floor division on [int], IEEE binary64 on [float],
    carried out on Rocq's primitive floats. *)

Inductive number : Type :=
| NInt (z : Z)
| NFloat (f : float).

Module PyFloat.

(** The float of sign [s] and magnitude [m * 2^e], rounded to nearest
    even; exact whenever the value is representable. *)
Definition of_scaled (s : bool) (m e : Z) : float :=
  SF2Prim (binary_normalize prec emax (cond_Zopp s m) e s).

(** [float(z)] for an [int]: [OverflowError] when out of range. *)
Definition of_int (z : Z) : outcome float :=
  let f := of_scaled false z 0 in
  if is_infinity f then Raises OverflowError else Returns f.

(** C's [fmod]: the exact remainder of [x / y], with the sign of [x]. *)
Definition fmod (x y : float) : float :=
  match Prim2SF x, Prim2SF y with
  | S754_nan, _ | _, S754_nan => nan
  | S754_infinity _, _ => nan
  | _, S754_zero _ => nan
  | S754_zero _, _ => x
  | S754_finite _ _ _, S754_infinity _ => x
  | S754_finite sx mx ex, S754_finite _ my ey =>
      let e := Z.min ex ey in
      let X := (Zpos mx * 2 ^ (ex - e))%Z in
      let Y := (Zpos my * 2 ^ (ey - e))%Z in
      of_scaled sx (X mod Y) e
  end.

(** C's [floor]. *)
Definition floor (x : float) : float :=
  match Prim2SF x with
  | S754_finite sx mx ex =>
      if (0 <=? ex)%Z then x
      else
        let q := (cond_Zopp sx (Zpos mx) / 2 ^ (- ex))%Z in
        SF2Prim (binary_normalize prec emax q 0 sx)
  | _ => x
  end.

(** C's [copysign]. *)
Definition copysign (x y : float) : float :=
  if get_sign y then (- abs x)%float else abs x.

(** A C [double] used as a condition. *)
Definition nonzero (x : float) : bool := negb (x =? 0)%float.

(** CPython's [float_divmod]. *)
Definition divmod (vx wx : float) : outcome (float * float) :=
  if (wx =? 0)%float then Raises ZeroDivisionError
  else
    let mod_ := fmod vx wx in
    let div_ := ((vx - mod_) / wx)%float in
    let '(mod_, div_) :=
      if nonzero mod_ then
        if xorb (wx <? 0)%float (mod_ <? 0)%float
        then ((mod_ + wx)%float, (div_ - 1)%float)
        else (mod_, div_)
      else (copysign 0 wx, div_) in
    let floordiv :=
      if nonzero div_ then
        let floordiv := floor div_ in
        if (0.5 <? div_ - floordiv)%float then (floordiv + 1)%float
        else floordiv
      else copysign 0 (vx / wx)%float in
    Returns (floordiv, mod_).

(** [m * 2^e * 10^precision] rounded to the nearest integer, ties to
    even: the digits of a correctly rounded ['%.<precision>f']. *)
Definition round_scaled (precision : nat) (m : positive) (e : Z) : Z :=
  let n := (Zpos m * 10 ^ Z.of_nat precision)%Z in
  if (0 <=? e)%Z then (n * 2 ^ e)%Z
  else
    let d := (2 ^ (- e))%Z in
    let q := (n / d)%Z in
    let r := (n mod d)%Z in
    if (d <? 2 * r)%Z then (q + 1)%Z
    else if (2 * r =? d)%Z && Z.odd q then (q + 1)%Z
    else q.

(** The decimal rendering of [n / 10^precision]. *)
Definition fixed (precision : nat) (n : Z) : string :=
  let p := (10 ^ Z.of_nat precision)%Z in
  let frac := pretty (n mod p)%Z in
  match precision with
  | O => pretty n
  | _ =>
      pretty (n / p)%Z +:+ "." +:+
      String.concat "" (replicate (precision - String.length frac) "0"%string)
      +:+ frac
  end.

(** Right alignment in a field of [width] characters, the default for
    numbers. *)
Definition pad_left (width : nat) (s : string) : string :=
  String.concat "" (replicate (width - String.length s) " "%string) +:+ s.

(** ['{:<width>.<precision>f}'.format(x)] for a float. *)
Definition format_f (width precision : nat) (x : float) : string :=
  pad_left width
    match Prim2SF x with
    | S754_nan => "nan"
    | S754_infinity s => if s then "-inf" else "inf"
    | S754_zero s => (if s then "-" else "") +:+ fixed precision 0
    | S754_finite s m e =>
        (if s then "-" else "") +:+ fixed precision (round_scaled precision m e)
    end%string.

End PyFloat.

(** [divmod(v, w)] *)
Definition divmod (v w : number) : outcome (number * number) :=
  match v, w with
  | NInt a, NInt b =>
      if (b =? 0)%Z then Raises ZeroDivisionError
      else Returns (NInt (a / b), NInt (a mod b))
  | _, _ =>
      vx ← (match v with NInt a => PyFloat.of_int a | NFloat f => Returns f end);
      wx ← (match w with NInt b => PyFloat.of_int b | NFloat f => Returns f end);
      '(q, r) ← PyFloat.divmod vx wx;
      Returns (NFloat q, NFloat r)
  end.

(** The truth value of a number. *)
Definition number_truthy (v : number) : bool :=
  match v with
  | NInt z => negb (z =? 0)%Z
  | NFloat f => PyFloat.nonzero f
  end.

(** ['{:<width>.<precision>f}'.format(v)]: an [int] is converted to
    [float] first. *)
Definition format_f (width precision : nat) (v : number) : outcome string :=
  match v with
  | NInt z => f ← PyFloat.of_int z; Returns (PyFloat.format_f width precision f)
  | NFloat f => Returns (PyFloat.format_f width precision f)
  end.

(** [format_time(t)] *)
Definition format_time (t : number) : outcome string :=
  '(m, s) ← divmod t (NInt 60);
  '(h, m) ← divmod m (NInt 60);
  if number_truthy h then
    hs ← format_f 2 0 h; ms ← format_f 2 0 m; ss ← format_f 4 1 s;
    Returns (hs +:+ "hr " +:+ ms +:+ "min " +:+ ss +:+ "s")
  else if number_truthy m then
    ms ← format_f 2 0 m; ss ← format_f 4 1 s;
    Returns (ms +:+ "min " +:+ ss +:+ "s")
  else
    ss ← format_f 4 1 s;
    Returns (ss +:+ "s").

(** ** Decidable equality of the state, for evaluating concrete runs *)

#[global] Instance Q_eq_dec : EqDecision Q.
Proof. solve_decision. Defined.
#[global] Instance pyobj_eq_dec : EqDecision pyobj.
Proof. solve_decision. Defined.
#[global] Instance exn_eq_dec : EqDecision exn.
Proof. solve_decision. Defined.
#[global] Instance outcome_eq_dec {A} `{EqDecision A} : EqDecision (outcome A).
Proof. solve_decision. Defined.
#[global] Instance Scheduler_eq_dec : EqDecision Scheduler.
Proof. solve_decision. Defined.
#[global] Instance Progress_eq_dec {C} `{EqDecision C} : EqDecision (Progress C).
Proof. solve_decision. Defined.

(** ** MultiProgress.start

    [MultiProgress] inherits [start] from [Progress], where [self.keys] is
    now a dict: [not self.keys] asks whether there is no label at all, and
    [all(k in self.scheduler.exceptions_blame for k in self.keys)] runs
    over the labels.  Labels are strings here, as [key_split] returns
    them. *)
Definition multi_start (st : Progress (gmap string (gset Key)) * Scheduler)
  : Progress (gmap string (gset Key)) * Scheduler :=
  let '(self, scheduler) := st in
  if decide (keys self = ∅) then stop PyNone None st
  else if decide (map_Forall (λ l _, KStr l ∈ exceptions_blame scheduler)
                    (keys self))
       then stop (PyBool true) None st
       else st.

(** ** The text progress bar

    [TextProgressBar._update] and [_draw_bar] compute the line that is
    written to the terminal from the sizes of [all_keys] and [keys] and
    from [self.elapsed], a float read off the clock. *)

(** [int(x)] for a float: truncation towards zero. *)
Definition float_to_int (x : float) : outcome Z :=
  match Prim2SF x with
  | S754_nan => Raises (Exception "ValueError: cannot convert float NaN to integer")
  | S754_infinity _ => Raises OverflowError
  | S754_zero _ => Returns 0%Z
  | S754_finite s m e =>
      Returns (cond_Zopp s (if (0 <=? e)%Z then Zpos m * 2 ^ e
                            else Zpos m / 2 ^ (- e)))%Z
  end.

(** [a / b] for two [int]s: the quotient rounded to the nearest float.
    Operands below [2^53] are converted exactly and divided as floats;
    larger ones are divided exactly, with a sticky bit for the remainder,
    and rounded once. *)
Definition int_true_divide (a b : Z) : outcome float :=
  if (b =? 0)%Z then Raises ZeroDivisionError
  else if (Z.abs a <? 2 ^ 53)%Z && (Z.abs b <? 2 ^ 53)%Z
  then Returns (PyFloat.of_scaled false a 0 / PyFloat.of_scaled false b 0)%float
  else
    let negative := xorb (a <? 0)%Z (b <? 0)%Z in
    let shift := Z.max 0 (Z.log2 (Z.abs b) - Z.log2 (Z.abs a) + 56)%Z in
    let n := (Z.abs a * 2 ^ shift)%Z in
    let q := (n / Z.abs b)%Z in
    let sticky := if (n mod Z.abs b =? 0)%Z then 0%Z else 1%Z in
    let f := PyFloat.of_scaled negative (2 * q + sticky) (- shift - 1) in
    if is_infinity f then Raises OverflowError else Returns f.

(** [n * x] for an [int] and a float. *)
Definition int_times_float (n : Z) (x : float) : outcome float :=
  nf ← PyFloat.of_int n; Returns (nf * x)%float.

(** [s * n] for a string and an [int]: empty when [n] is negative. *)
Definition str_times (s : string) (n : Z) : string :=
  String.concat "" (replicate (Z.to_nat n) s).

(** ['{0:<{1}}'.format(s, width)]: [s] followed by spaces up to [width]
    characters; a negative width is refused. *)
Definition format_left (s : string) (width : Z) : outcome string :=
  if (width <? 0)%Z
  then Raises (Exception "ValueError: Sign not allowed in string format specifier")
  else Returns (s +:+ str_times " " (width - Z.of_nat (String.length s))).

(** The carriage return that starts the line. *)
Definition carriage_return : string :=
  String (Ascii.ascii_of_nat 13) EmptyString.

(** [TextProgressBar._draw_bar(self, frac, elapsed)]: the message passed to
    [sys.stdout.write]. *)
Definition _draw_bar (_width : Z) (frac : float) (elapsed : number)
  : outcome string :=
  filled ← int_times_float _width frac;
  filled ← float_to_int filled;
  let bar := str_times "#" filled in
  percent ← int_times_float 100 frac;
  percent ← float_to_int percent;
  elapsed ← format_time elapsed;
  bar ← format_left bar _width;
  Returns (carriage_return +:+ "[" +:+ bar +:+ "] | " +:+ pretty percent
           +:+ "% Completed | " +:+ elapsed).

(** [ndone / ntasks if ntasks else 1.0], for [ntasks = len(self.all_keys)]
    and [ndone = ntasks - len(self.keys)]. *)
Definition fraction_done (all_keys keys : gset Key) : outcome float :=
  let ntasks := Z.of_nat (size all_keys) in
  let ndone := (ntasks - Z.of_nat (size keys))%Z in
  if (ntasks =? 0)%Z then Returns 1%float else int_true_divide ndone ntasks.

(** [TextProgressBar._update(self)], with the value of [self.elapsed]. *)
Definition TextProgressBar_update (_width : Z) (self : Progress (gset Key))
    (elapsed : float) : outcome string :=
  frac ← fraction_done (all_keys self) (keys self);
  _draw_bar _width frac (NFloat elapsed).

(** [ProgressWidget._update(self)]: the values assigned to [self.bar.value]
    and [self.bar.description]. *)
Definition ProgressWidget_update (self : Progress (gset Key))
    (elapsed : float) : outcome (float * string) :=
  frac ← fraction_done (all_keys self) (keys self);
  description ← format_time (NFloat elapsed);
  Returns (frac, description).

(** * Part II: the vocabulary of the specification *)

(** ** Closures and reachability *)

Section Closure.

Variable who_has : gmap Key (gset worker).
Variable processing : gset Key.
Variable stacks : gset Key.
Variable dependencies : gmap Key (list Key).

(** A popped key that is not yet in [out] is visited unless the guard
    [not complete and (...)] holds. *)
Definition admissible (complete : bool) (k : Key) : bool :=
  complete || negb (satisfied who_has processing stacks k).

(** Keys reachable from the targets through the dependency relation. *)
Inductive reachable (targets : list Key) : Key → Prop :=
| reachable_target k : k ∈ targets → reachable targets k
| reachable_dep k k' :
    reachable targets k → k' ∈ dependencies_get dependencies k →
    reachable targets k'.

(** Keys reachable from the targets along admissible keys only. *)
Inductive closure (complete : bool) (targets : list Key) : Key → Prop :=
| closure_target k :
    k ∈ targets → admissible complete k = true → closure complete targets k
| closure_dep k k' :
    closure complete targets k → k' ∈ dependencies_get dependencies k →
    admissible complete k' = true → closure complete targets k'.

End Closure.

(** ** Buckets of a grouped tracker *)

(** What a renderer sums over the labels: [len(d[label])] for each. *)
Definition bucket_total `{Countable label} (d : gmap label (gset Key)) : nat :=
  sum_list_with (λ kv, size kv.2) (map_to_list d).

(** [k] is in one of the buckets of [d]. *)
Definition in_bucket `{Countable label} (d : gmap label (gset Key)) (k : Key)
  : Prop :=
  ∃ l s, d !! l = Some s ∧ k ∈ s.

Section Grouped.

Context {label : Type} `{Countable label}.
Variable func : Key → outcome label.

(** Every key of a bucket is mapped to the bucket's label by [func]. *)
Definition labelled (m : gmap label (gset Key)) : Prop :=
  ∀ l s k, m !! l = Some s → k ∈ s → func k = Returns l.

(** [mp] holds the keys of [p], split by label. *)
Record grouped_of (p : Progress (gset Key))
    (mp : Progress (gmap label (gset Key))) : Prop := {
  grouped_keys_labelled : labelled (keys mp);
  grouped_keys_cover : ∀ k, in_bucket (keys mp) k ↔ k ∈ keys p;
  grouped_all_labelled : labelled (all_keys mp);
  grouped_all_cover : ∀ k, in_bucket (all_keys mp) k ↔ k ∈ all_keys p;
  grouped_status : status mp = status p;
  grouped_self : self_id mp = self_id p
}.

End Grouped.

(** [s] contains a hyphen. *)
Fixpoint has_hyphen (s : string) : bool :=
  match s with
  | EmptyString => false
  | String c s' => Ascii.eqb c (Ascii.ascii_of_nat 45) || has_hyphen s'
  end.

(** ** Scenarios *)

(** A dependency map where ["c"] needs ["b"] and ["b"] is already held by
    a worker. *)
Definition held_b : gmap Key (gset worker) := {[ KStr "b" := {[ "w1"%string ]} ]}.
Definition c_needs_b : gmap Key (list Key) := {[ KStr "c" := [KStr "b"] ]}.

(** Scenario A and B: the chain [{a: [], b: [a], c: [b]}], nothing computed
    yet, tracked from the target [c]. *)
Definition chain_scheduler : Scheduler :=
  {| dask := {[ KStr "a"; KStr "b"; KStr "c" ]};
     in_play := {[ KStr "a"; KStr "b"; KStr "c" ]};
     who_has := ∅; processing := ∅; stacks := ∅;
     waiting := {[ KStr "a" := []; KStr "b" := [KStr "a"];
                   KStr "c" := [KStr "b"] ]};
     exceptions_blame := ∅; diagnostics := [] |}.

Definition no_wait : Env :=
  {| time_start := 0%Q; polls := []; timer_start := 0%Q |}.

Definition chain_tracker : Progress (gset Key) * Scheduler :=
  ({| self_id := 7; _start_time := 0%Q; _minimum := 0%Q; _dt := (1 # 10)%Q;
      last_duration := 0%Q; keys := {[ KStr "a"; KStr "b"; KStr "c" ]};
      _running := false; all_keys := {[ KStr "a"; KStr "b"; KStr "c" ]};
      status := None |},
   set_diagnostics [7] chain_scheduler).

(** Scenario B: ["b"] fails, then ["a"] and ["b"] are reported finished. *)
Definition erred_chain : Progress (gset Key) * Scheduler :=
  deliver_all [TaskErred (KStr "b") "w1" (PyException "boom");
               TaskFinished (KStr "a") "w1" 8;
               TaskFinished (KStr "b") "w1" 8] chain_tracker.

Definition finished_chain : Progress (gset Key) * Scheduler :=
  deliver_all [TaskFinished (KStr "a") "w1" 8;
               TaskFinished (KStr "b") "w1" 8;
               TaskFinished (KStr "c") "w1" 8] chain_tracker.

(** A key scattered to a worker is in [who_has] and [in_play] but not in
    the task graph. *)
Definition scattered_scheduler : Scheduler :=
  {| dask := ∅; in_play := {[ KStr "x" ]};
     who_has := {[ KStr "x" := {[ "w1"%string ]} ]};
     processing := ∅; stacks := ∅; waiting := ∅;
     exceptions_blame := ∅; diagnostics := [] |}.

Definition one_second_wait : Env :=
  {| time_start := 100%Q;
     polls := [((10001 # 100)%Q, scattered_scheduler);
               ((1005 # 10)%Q, scattered_scheduler);
               ((10101 # 100)%Q, scattered_scheduler)];
     timer_start := 0%Q |}.

(** Three independent tasks, none computed yet. *)
Definition xy_scheduler : Scheduler :=
  {| dask := {[ KStr "x-1"; KStr "x-2"; KStr "y-1" ]};
     in_play := {[ KStr "x-1"; KStr "x-2"; KStr "y-1" ]};
     who_has := ∅; processing := ∅; stacks := ∅;
     waiting := {[ KStr "x-1" := []; KStr "x-2" := []; KStr "y-1" := [] ]};
     exceptions_blame := ∅; diagnostics := [] |}.

Definition xy_targets : list target :=
  [Bare (KStr "x-1"); Bare (KStr "x-2"); Bare (KStr "y-1")].

Definition xy_buckets : gmap string (gset Key) :=
  {[ "x"%string := {[ KStr "x-1"; KStr "x-2" ]};
     "y"%string := {[ KStr "y-1" ]} ]}.

Definition xy_ungrouped : Progress (gset Key) :=
  {| self_id := 7; _start_time := 0%Q; _minimum := 0%Q; _dt := (1 # 10)%Q;
     last_duration := 0%Q;
     keys := {[ KStr "x-1"; KStr "x-2"; KStr "y-1" ]}; _running := false;
     all_keys := {[ KStr "x-1"; KStr "x-2"; KStr "y-1" ]}; status := None |}.

Definition xy_tracker : Progress (gmap string (gset Key)) * Scheduler :=
  (with_keys xy_buckets xy_buckets xy_ungrouped,
   set_diagnostics [7] xy_scheduler).

(** ** Chains of dependencies *)

(** Each key of [path] after the first is a direct dependency of the key
    before it. *)
Fixpoint dependency_chain (dependencies : gmap Key (list Key))
    (path : list Key) : Prop :=
  match path with
  | k :: (k' :: _) as rest =>
      k' ∈ dependencies_get dependencies k
      ∧ dependency_chain dependencies rest
  | _ => True
  end.

(** ** Events *)

Definition event_key (ev : event) : Key :=
  match ev with
  | TaskFinished k _ _ => k
  | TaskErred k _ _ => k
  end.

Definition is_task_finished (ev : event) : bool :=
  match ev with
  | TaskFinished _ _ _ => true
  | TaskErred _ _ _ => false
  end.

(** Every failure among [evs] carries a truthy exception. *)
Definition truthy_payloads (evs : list event) : Prop :=
  Forall (λ ev, match ev with
                | TaskErred _ _ e => truthy e = true
                | TaskFinished _ _ _ => True
                end) evs.

(** ** Keys and labels *)

(** The first component of a tuple key, taken [n] times. *)
Fixpoint first_component (n : nat) (k : Key) : option Key :=
  match n with
  | O => Some k
  | S n' =>
      match k with
      | KTuple (k0 :: _) => first_component n' k0
      | _ => None
      end
  end.

(** ** Durations *)

(** A whole number of seconds written as hours, minutes and seconds: the
    seconds with one decimal in four characters, the minutes and the hours
    in two, the larger units only when they are not zero. *)
Definition clock_text (t : Z) : string :=
  let h := (t / 60 / 60)%Z in
  let m := ((t / 60) mod 60)%Z in
  let s := (t mod 60)%Z in
  let ss := PyFloat.pad_left 4 (pretty s +:+ ".0") in
  let ms := PyFloat.pad_left 2 (pretty m) in
  let hs := PyFloat.pad_left 2 (pretty h) in
  if (h =? 0)%Z
  then if (m =? 0)%Z then ss +:+ "s" else ms +:+ "min " +:+ ss +:+ "s"
  else hs +:+ "hr " +:+ ms +:+ "min " +:+ ss +:+ "s".

(** ** What the text bar shows *)

(** The number of filled cells and the percentage [_draw_bar] computes
    when [ndone] of [ntasks] tasks are done. *)
Definition bar_numbers (width ndone ntasks : Z) : outcome (Z * Z) :=
  frac ← (if (ntasks =? 0)%Z then Returns 1%float
          else int_true_divide ndone ntasks);
  filled ← int_times_float width frac;
  filled ← float_to_int filled;
  percent ← int_times_float 100 frac;
  percent ← float_to_int percent;
  Returns (filled, percent).

(** All [(ndone, ntasks)] with [0 ≤ ndone ≤ ntasks] and
    [1 ≤ ntasks ≤ most]. *)
Definition progress_pairs (most : Z) : list (Z * Z) :=
  ntasks ← seqZ 1 most; ndone ← seqZ 0 (ntasks + 1); [(ndone, ntasks)].

(** The filled cells and the percentage never overstate the progress, fall
    short of it by less than two units, and are full exactly when all is
    done. *)
Definition bar_numbers_sound (width : Z) (p : Z * Z) : bool :=
  match bar_numbers width p.1 p.2 with
  | Returns (filled, percent) =>
      (0 <=? filled)%Z && (filled <=? width)%Z
      && (0 <=? percent)%Z && (percent <=? 100)%Z
      && (filled * p.2 <=? width * p.1)%Z
      && (width * p.1 <? (filled + 2) * p.2)%Z
      && (percent * p.2 <=? 100 * p.1)%Z
      && (100 * p.1 <? (percent + 2) * p.2)%Z
      && Bool.eqb (filled =? width)%Z (p.1 =? p.2)%Z
      && Bool.eqb (percent =? 100)%Z (p.1 =? p.2)%Z
  | _ => false
  end.

(** The fraction is between 0 and 1, and 0 or 1 exactly when nothing or
    everything is done. *)
Definition fraction_sound (p : Z * Z) : bool :=
  match int_true_divide p.1 p.2 with
  | Returns frac =>
      (0 <=? frac)%float && (frac <=? 1)%float
      && Bool.eqb (frac =? 1)%float (p.1 =? p.2)%Z
      && Bool.eqb (frac =? 0)%float (p.1 =? 0)%Z
  | _ => false
  end.

(** ** More scenarios *)

(** A graph of one task ["x"] whose result is already held by a worker. *)
Definition computed_scheduler : Scheduler :=
  {| dask := {[ KStr "x" ]}; in_play := {[ KStr "x" ]};
     who_has := {[ KStr "x" := {[ "w1"%string ]} ]};
     processing := ∅; stacks := ∅; waiting := {[ KStr "x" := [] ]};
     exceptions_blame := ∅; diagnostics := [] |}.

Definition computed_tracker : Progress (gset Key) * Scheduler :=
  ({| self_id := 7; _start_time := 0%Q; _minimum := 0%Q; _dt := (1 # 10)%Q;
      last_duration := 0%Q; keys := ∅; _running := false;
      all_keys := {[ KStr "x" ]}; status := None |},
   set_diagnostics [7] computed_scheduler).

(** The same dependencies as [c_needs_b], listed twice. *)
Definition c_needs_b_twice : gmap Key (list Key) :=
  {[ KStr "c" := [KStr "b"; KStr "b"] ]}.

(** Scenario C after ["x-1"] finished. *)
Definition xy_after_x1 : Progress (gmap string (gset Key)) * Scheduler :=
  (with_keys {[ "x"%string := {[ KStr "x-2" ]}; "y"%string := {[ KStr "y-1" ]} ]}
     xy_buckets xy_ungrouped,
   set_diagnostics [7] xy_scheduler).

(** Scenario C on a scheduler where all three tasks have failed. *)
Definition blamed_scheduler : Scheduler :=
  {| dask := {[ KStr "x-1"; KStr "x-2"; KStr "y-1" ]};
     in_play := {[ KStr "x-1"; KStr "x-2"; KStr "y-1" ]};
     who_has := ∅; processing := ∅; stacks := ∅;
     waiting := {[ KStr "x-1" := []; KStr "x-2" := []; KStr "y-1" := [] ]};
     exceptions_blame := {[ KStr "x-1"; KStr "x-2"; KStr "y-1" ]};
     diagnostics := [7] |}.

(** * Part III: properties *)

(** ** The dependency closure *)

Section DependentKeysFacts.

Variable who_has : gmap Key (gset worker).
Variable processing : gset Key.
Variable stacks : gset Key.
Variable dependencies : gmap Key (list Key).

Local Abbreviation satisfied := (satisfied who_has processing stacks).
Local Abbreviation dependencies_get := (dependencies_get dependencies).
Local Abbreviation dependent_keys_loop :=
  (dependent_keys_loop who_has processing stacks dependencies).
Local Abbreviation dependent_keys :=
  (dependent_keys who_has processing stacks dependencies).
Local Abbreviation admissible := (admissible who_has processing stacks).
Local Abbreviation reachable := (reachable dependencies).
Local Abbreviation closure :=
  (closure who_has processing stacks dependencies).

Lemma guard_admissible complete k :
  negb complete && satisfied k = negb (admissible complete k).
Proof. unfold admissible. by destruct complete, (satisfied k). Qed.

Lemma loop_out_subseteq complete out stack :
  out ⊆ dependent_keys_loop complete out stack.
Proof.
  funelim (dependent_keys_loop complete out stack); simp dependent_keys_loop;
    try rewrite Heq; simpl; try rewrite Heq0; simpl; set_solver.
Qed.

Lemma loop_stack_visited complete out stack s :
  s ∈ stack → admissible complete s = true →
  s ∈ dependent_keys_loop complete out stack.
Proof.
  funelim (dependent_keys_loop complete out stack); intros Hs Hadm.
  - by apply elem_of_nil in Hs.
  - apply elem_of_cons in Hs as [->|Hs]; [|by auto].
    by apply loop_out_subseteq.
  - apply elem_of_cons in Hs as [->|Hs]; [|by auto].
    rewrite guard_admissible, Hadm in Heq. done.
  - apply elem_of_cons in Hs as [->|Hs].
    + apply loop_out_subseteq. set_solver.
    + apply H; [|done]. apply elem_of_app. by right.
Qed.

Lemma loop_sound complete (P : Key → Prop) out stack :
  (∀ k k', P k → k' ∈ dependencies_get k →
           admissible complete k' = true → P k') →
  (∀ k, k ∈ out → P k) →
  (∀ s, s ∈ stack → admissible complete s = true → P s) →
  ∀ k, k ∈ dependent_keys_loop complete out stack → P k.
Proof.
  intros Hstep.
  funelim (dependent_keys_loop complete out stack); intros Hout Hstack.
  - done.
  - apply H; [done..|]. intros s Hs. apply Hstack. by right.
  - apply H; [done..|]. intros s Hs. apply Hstack. by right.
  - assert (P k) as Pk.
    { apply Hstack; [by left|].
      rewrite guard_admissible in Heq. by destruct (admissible complete k). }
    apply H; [done| |].
    + intros k0 [->%elem_of_singleton|Hk0]%elem_of_union; auto.
    + intros s [Hs|Hs]%elem_of_app Hadm.
      * apply (Hstep k); [done| |done]. by rewrite elem_of_reverse in Hs.
      * apply Hstack; [by right|done].
Qed.

Lemma loop_closed complete out stack :
  (∀ k k', k ∈ out → k' ∈ dependencies_get k →
           admissible complete k' = true → k' ∈ out ∨ k' ∈ stack) →
  ∀ k k', k ∈ dependent_keys_loop complete out stack →
          k' ∈ dependencies_get k → admissible complete k' = true →
          k' ∈ dependent_keys_loop complete out stack.
Proof.
  funelim (dependent_keys_loop complete out stack); intros Hinv.
  - intros k k' Hk Hd Hadm. destruct (Hinv k k' Hk Hd Hadm) as [|Hn]; [done|].
    by apply elem_of_nil in Hn.
  - apply H. intros k0 k' Hk0 Hd Hadm.
    destruct (Hinv k0 k' Hk0 Hd Hadm) as [|[->|]%elem_of_cons]; auto.
  - apply H. intros k0 k' Hk0 Hd Hadm.
    destruct (Hinv k0 k' Hk0 Hd Hadm) as [|[->|]%elem_of_cons]; auto.
    rewrite guard_admissible, Hadm in Heq. done.
  - apply H. intros k0 k' [->%elem_of_singleton|Hk0]%elem_of_union Hd Hadm.
    + right. apply elem_of_app. left. by apply elem_of_reverse.
    + destruct (Hinv k0 k' Hk0 Hd Hadm) as [|[->|]%elem_of_cons].
      * left. set_solver.
      * left. set_solver.
      * right. apply elem_of_app. by right.
Qed.

(** The result of [dependent_keys] is the admissible closure of the
    targets, whatever the iteration order. *)
Lemma dependent_keys_closure keys complete k :
  k ∈ dependent_keys keys complete ↔ closure complete keys k.
Proof.
  unfold dependent_keys. split.
  - revert k. apply loop_sound.
    + intros k0 k' Hk0 Hd Hadm. by apply closure_dep with k0.
    + set_solver.
    + intros s Hs Hadm. apply closure_target; [|done].
      by rewrite elem_of_reverse in Hs.
  - induction 1 as [k Hk Hadm|k k' _ IH Hd Hadm].
    + apply loop_stack_visited; [|done]. by apply elem_of_reverse.
    + revert IH Hd Hadm. apply loop_closed. set_solver.
Qed.

Lemma closure_admissible complete keys k :
  closure complete keys k → admissible complete k = true.
Proof. by destruct 1. Qed.

Lemma closure_reachable complete keys k :
  closure complete keys k → reachable keys k.
Proof.
  induction 1; [by apply reachable_target|by eapply reachable_dep].
Qed.

Lemma reachable_closure keys k :
  reachable keys k → closure true keys k.
Proof.
  induction 1; [by apply closure_target|by eapply closure_dep].
Qed.

Lemma dependent_keys_complete keys k :
  k ∈ dependent_keys keys true ↔ reachable keys k.
Proof.
  rewrite dependent_keys_closure. split;
    [apply closure_reachable|apply reachable_closure].
Qed.

Lemma satisfied_true k :
  satisfied k = true ↔
  (∃ ws, who_has !! k = Some ws ∧ ws ≠ ∅) ∨ k ∈ processing ∨ k ∈ stacks.
Proof.
  unfold satisfied. rewrite !orb_true_iff, !bool_decide_eq_true.
  unfold who_has_get. destruct (who_has !! k) as [ws|].
  - rewrite bool_decide_eq_true. naive_solver.
  - naive_solver.
Qed.

Lemma loop_skips_satisfied k out stack :
  satisfied k = true →
  dependent_keys_loop false out (k :: stack)
  = dependent_keys_loop false out stack.
Proof.
  intros Hsat. simp dependent_keys_loop.
  destruct (decide (k ∈ out)); simpl; [done|].
  rewrite Hsat. by simp dependent_keys_loop.
Qed.

(** C2: with [complete=False] no satisfied key (a key with a non-empty
    [who_has] entry, or in [processing], or in [stacks]) is in the
    result of [dependent_keys]; when the loop pops such a key it goes on
    with the same [out] and the rest of the stack, so the key is neither
    added nor are its dependencies pushed. *)
Theorem dependent_keys_skips_satisfied (keys : list Key) (k : Key) :
  (∃ ws, who_has !! k = Some ws ∧ ws ≠ ∅) ∨ k ∈ processing ∨ k ∈ stacks →
  (k ∉ dependent_keys keys false)
  ∧ (∀ out stack,
       dependent_keys_loop false out (k :: stack)
       = dependent_keys_loop false out stack).
Proof.
  intros Hsat%satisfied_true. split.
  - intros Hk%dependent_keys_closure%closure_admissible.
    unfold admissible in Hk. rewrite Hsat in Hk. done.
  - intros out stack. by apply loop_skips_satisfied.
Qed.

(** C3, amended: the pending closure together with the targets is
    included in the full closure, which is exactly the set of keys
    reachable from the targets; the two sides of the equation agree when
    no key reachable from the targets is satisfied. *)
Theorem closure_equation_amended (keys : list Key) :
  (∀ k, k ∈ dependent_keys keys false ∪ list_to_set keys →
        k ∈ dependent_keys keys true ∧ reachable keys k)
  ∧ (∀ k, k ∈ dependent_keys keys true ↔ reachable keys k)
  ∧ ((∀ k, reachable keys k → satisfied k = false) →
     ∀ k, k ∈ dependent_keys keys false ∪ list_to_set keys ↔
          k ∈ dependent_keys keys true ∧ reachable keys k).
Proof.
  assert (∀ k, k ∈ dependent_keys keys false ∪ list_to_set keys →
               reachable keys k) as Hsub.
  { intros k [Hk|Hk]%elem_of_union.
    - by apply dependent_keys_closure, closure_reachable in Hk.
    - apply reachable_target. by apply elem_of_list_to_set in Hk. }
  split; [|split].
  - intros k Hk. split; [apply dependent_keys_complete|]; by apply Hsub.
  - apply dependent_keys_complete.
  - intros Hunsat k. split.
    + intros Hk. split; [apply dependent_keys_complete|]; by apply Hsub.
    + intros [_ Hr]. apply elem_of_union. left.
      apply dependent_keys_closure.
      induction Hr as [k Hk|k k' Hr IH Hd].
      * apply closure_target; [done|]. unfold admissible.
        rewrite Hunsat; [done|]. by apply reachable_target.
      * apply closure_dep with k; [by apply IH|done|]. unfold admissible.
        rewrite Hunsat; [done|]. by apply reachable_dep with k.
Qed.

End DependentKeysFacts.

(** C10: with [complete=True] the result of [dependent_keys] is the same
    for any two scheduler states that agree on the dependency map, whatever
    their [who_has], [processing] and [stacks]. *)
Theorem dependent_keys_complete_noninterference
    (who_has1 who_has2 : gmap Key (gset worker))
    (processing1 processing2 stacks1 stacks2 : gset Key)
    (dependencies : gmap Key (list Key)) (keys : list Key) :
  dependent_keys who_has1 processing1 stacks1 dependencies keys true
  = dependent_keys who_has2 processing2 stacks2 dependencies keys true.
Proof.
  apply set_eq. intros k. by rewrite !dependent_keys_complete.
Qed.

Lemma dependent_keys_skips_satisfied_witness :
  ((∃ ws, held_b !! KStr "b" = Some ws ∧ ws ≠ ∅)
   ∨ KStr "b" ∈ (∅ : gset Key) ∨ KStr "b" ∈ (∅ : gset Key))
  ∧ KStr "b" ∉ dependent_keys held_b ∅ ∅ c_needs_b [KStr "c"] false.
Proof.
  assert ((∃ ws, held_b !! KStr "b" = Some ws ∧ ws ≠ ∅)
          ∨ KStr "b" ∈ (∅ : gset Key) ∨ KStr "b" ∈ (∅ : gset Key)) as Hb.
  { left. exists {[ "w1"%string ]}. split; [reflexivity|].
    apply (bool_decide_unpack _). vm_compute. exact I. }
  split; [exact Hb|].
  exact (proj1 (dependent_keys_skips_satisfied held_b ∅ ∅ c_needs_b
                  [KStr "c"] (KStr "b") Hb)).
Defined.

(** C3 as stated fails: ["b"] is reachable from the target ["c"] and is in
    the full closure, but it is held by a worker, so it is neither in the
    pending closure nor a target. *)
Lemma closure_equation_counterexample :
  ¬ (∀ k, k ∈ dependent_keys held_b ∅ ∅ c_needs_b [KStr "c"] false
              ∪ list_to_set [KStr "c"] ↔
          k ∈ dependent_keys held_b ∅ ∅ c_needs_b [KStr "c"] true
          ∧ reachable c_needs_b [KStr "c"] k).
Proof.
  intros Heq. destruct (Heq (KStr "b")) as [_ Hback].
  assert (KStr "b" ∉ dependent_keys held_b ∅ ∅ c_needs_b [KStr "c"] false
                     ∪ list_to_set [KStr "c"]) as Hno.
  { apply (bool_decide_unpack _). vm_compute. exact I. }
  apply Hno, Hback. split.
  - apply (bool_decide_unpack _). vm_compute. exact I.
  - apply reachable_dep with (KStr "c").
    + apply reachable_target. by left.
    + unfold dependencies_get, c_needs_b. rewrite lookup_singleton_eq. by left.
Qed.

Lemma closure_equation_amended_witness :
  (∀ k, reachable c_needs_b [KStr "c"] k → satisfied ∅ ∅ ∅ k = false)
  ∧ ∀ k, k ∈ dependent_keys ∅ ∅ ∅ c_needs_b [KStr "c"] false
             ∪ list_to_set [KStr "c"] ↔
         k ∈ dependent_keys ∅ ∅ ∅ c_needs_b [KStr "c"] true
         ∧ reachable c_needs_b [KStr "c"] k.
Proof.
  assert (∀ k, reachable c_needs_b [KStr "c"] k → satisfied ∅ ∅ ∅ k = false)
    as Hunsat.
  { intros k _. unfold satisfied, who_has_get. rewrite lookup_empty.
    rewrite !bool_decide_eq_false_2; [done|set_solver..]. }
  split; [exact Hunsat|].
  exact (proj2 (proj2 (closure_equation_amended ∅ ∅ ∅ c_needs_b [KStr "c"]))
           Hunsat).
Defined.

(** ** The tracker *)

Lemma chain_tracker_constructed :
  Progress_init 7 [Bare (KStr "c")] (Some chain_scheduler) None
    0%Q (1 # 10)%Q no_wait = Returns chain_tracker.
Proof. compute_done. Qed.

Lemma scenario_a :
  keys (deliver_all [TaskFinished (KStr "a") "w1" 8] chain_tracker).1
  = {[ KStr "b"; KStr "c" ]}
  ∧ keys (deliver_all [TaskFinished (KStr "a") "w1" 8;
                       TaskFinished (KStr "b") "w1" 8] chain_tracker).1
    = {[ KStr "c" ]}
  ∧ (deliver_all [TaskFinished (KStr "a") "w1" 8;
                  TaskFinished (KStr "b") "w1" 8;
                  TaskFinished (KStr "c") "w1" 8] chain_tracker).1
    = set_status (Some "finished"%string) (set_keys ∅ chain_tracker.1).
Proof. compute_done. Qed.

Section ProgressFacts.

Implicit Types (st : Progress (gset Key) * Scheduler) (k : Key)
  (e : pyobj) (n : Z).

Lemma list_remove_absent (x : nat) (l : list nat) :
  x ∉ l → list_remove x l = l.
Proof.
  induction l as [|y l IH]; [done|]. intros Hx. simpl.
  rewrite decide_False by set_solver. f_equal. apply IH. set_solver.
Qed.

Lemma list_remove_NoDup (x : nat) (l : list nat) :
  NoDup l → x ∉ list_remove x l.
Proof.
  induction 1 as [|y l Hy Hnd IH]; simpl; [set_solver|].
  case_decide; [by subst|]. set_solver.
Qed.

(** [stop] writes [status] and removes the tracker from the scheduler's
    plugin list; it stores neither of its arguments. *)
Lemma stop_eq {C} e (key : option Key) (st : Progress C * Scheduler) :
  stop e key st
  = (set_status (Some (if truthy e then "error" else "finished")%string) st.1,
     set_diagnostics (list_remove (self_id st.1) (diagnostics st.2)) st.2).
Proof.
  destruct st as [self [d i wh pr sk wt eb dg]]. unfold stop. simpl.
  case_decide as Hin.
  - by destruct (truthy e).
  - rewrite list_remove_absent by done. by destruct (truthy e).
Qed.

Lemma task_finished_eq k (w : worker) n st :
  task_finished k w n st
  = if decide (keys st.1 ∖ {[k]} = ∅)
    then stop PyNone None (set_keys (keys st.1 ∖ {[k]}) st.1, st.2)
    else (set_keys (keys st.1 ∖ {[k]}) st.1, st.2).
Proof.
  destruct st as [self s]. unfold task_finished. simpl.
  destruct (decide (k ∈ keys self)) as [Hk|Hk]; [done|].
  assert (keys self ∖ {[k]} = keys self) as -> by set_solver.
  by destruct self.
Qed.

Lemma task_finished_all_keys k (w : worker) n st :
  all_keys (task_finished k w n st).1 = all_keys st.1
  ∧ keys (task_finished k w n st).1 = keys st.1 ∖ {[k]}.
Proof.
  rewrite task_finished_eq. case_decide; [rewrite stop_eq|]; done.
Qed.

Lemma task_erred_all_keys k (w : worker) e st :
  all_keys (task_erred k w e st).1 = all_keys st.1
  ∧ keys (task_erred k w e st).1 = keys st.1.
Proof.
  unfold task_erred. case_decide; [rewrite stop_eq|]; done.
Qed.

Lemma deliver_all_keys evs st :
  all_keys (deliver_all evs st).1 = all_keys st.1
  ∧ keys (deliver_all evs st).1 ⊆ keys st.1.
Proof.
  revert st. induction evs as [|ev evs IH]; intros st; [done|].
  unfold deliver_all in *. simpl. destruct (IH (deliver ev st)) as [-> Hk].
  destruct ev as [k w n|k w e]; simpl in *.
  - destruct (task_finished_all_keys k w n st) as [-> Hk']. set_solver.
  - destruct (task_erred_all_keys k w e st) as [-> Hk']. set_solver.
Qed.

Lemma list_remove_sublist (x : nat) (l : list nat) :
  sublist (list_remove x l) l.
Proof.
  induction l as [|y l IH]; simpl; [done|].
  case_decide; [by apply sublist_cons|by apply sublist_skip].
Qed.

(** A terminal [status] is only ever written by [stop], which takes the
    tracker off the plugin list first: while no plugin is registered twice,
    a tracker with a status is not registered. *)
Lemma stop_unregisters {C} e (key : option Key) (st : Progress C * Scheduler) :
  NoDup (diagnostics st.2) →
  NoDup (diagnostics (stop e key st).2)
  ∧ (self_id (stop e key st).1 ∉ diagnostics (stop e key st).2)
  ∧ status (stop e key st).1 ≠ None.
Proof.
  intros Hnd. rewrite stop_eq. cbn [fst snd]. split; [|split].
  - exact (sublist_NoDup _ _ Hnd (list_remove_sublist _ _)).
  - by apply list_remove_NoDup.
  - done.
Qed.

Lemma act_unregistered (a : action) st :
  NoDup (diagnostics st.2) →
  (status st.1 ≠ None → self_id st.1 ∉ diagnostics st.2) →
  NoDup (diagnostics (act a st).2)
  ∧ (status (act a st).1 ≠ None →
     self_id (act a st).1 ∉ diagnostics (act a st).2).
Proof.
  intros Hnd Hinv.
  assert (∀ e key, NoDup (diagnostics (stop e key st).2)
                   ∧ (status (stop e key st).1 ≠ None →
                      self_id (stop e key st).1
                      ∉ diagnostics (stop e key st).2)) as Hstop.
  { intros e key. destruct (stop_unregisters e key st Hnd) as (? & ? & _).
    done. }
  destruct a as [|[k w n|k w e]]; cbn [act].
  - unfold start. destruct st as [p s]. cbn [fst snd] in *.
    destruct (decide (keys p = ∅)); [apply Hstop|].
    destruct (decide (keys p ⊆ exceptions_blame s)); [apply Hstop|done].
  - unfold dispatch. destruct (decide (self_id st.1 ∈ diagnostics st.2))
      as [Hreg|Hreg]; [|done].
    cbn [deliver]. rewrite task_finished_eq.
    destruct (decide (keys st.1 ∖ {[k]} = ∅)).
    + destruct (stop_unregisters PyNone None
                  (set_keys (keys st.1 ∖ {[k]}) st.1, st.2) Hnd)
        as (? & ? & _).
      done.
    + split; [done|]. cbn [fst snd set_keys status self_id].
      intros Hs. by destruct (Hinv Hs).
  - unfold dispatch. destruct (decide (self_id st.1 ∈ diagnostics st.2))
      as [Hreg|Hreg]; [|done].
    cbn [deliver]. unfold task_erred.
    destruct (decide (k ∈ all_keys st.1)); [apply Hstop|done].
Qed.

Lemma lifetime_unregistered (acts : list action) st :
  NoDup (diagnostics st.2) →
  (status st.1 ≠ None → self_id st.1 ∉ diagnostics st.2) →
  NoDup (diagnostics (lifetime acts st).2)
  ∧ (status (lifetime acts st).1 ≠ None →
     self_id (lifetime acts st).1 ∉ diagnostics (lifetime acts st).2).
Proof.
  revert st. induction acts as [|a acts IH]; intros st Hnd Hinv; [done|].
  destruct (act_unregistered a st Hnd Hinv) as [Hnd' Hinv'].
  exact (IH (act a st) Hnd' Hinv').
Qed.

(** C4, amended: for a key of [all_keys] and a truthy exception,
    [task_erred] sets [status] to ['error'] and takes the tracker off the
    plugin list; nothing else changes, and neither the key nor the
    exception is stored, so the outcome is the same for every key of
    [all_keys] and every truthy exception.  For a key outside [all_keys]
    nothing changes at all. *)
Theorem task_erred_amended st k (w : worker) e :
  (k ∈ all_keys st.1 → truthy e = true →
     status (task_erred k w e st).1 = Some "error"%string
     ∧ (task_erred k w e st).1 = set_status (Some "error"%string) st.1
     ∧ (task_erred k w e st).2
       = set_diagnostics (list_remove (self_id st.1) (diagnostics st.2)) st.2
     ∧ ∀ k' (w' : worker) e', k' ∈ all_keys st.1 → truthy e' = true →
         task_erred k' w' e' st = task_erred k w e st)
  ∧ (k ∉ all_keys st.1 → task_erred k w e st = st).
Proof.
  split.
  - intros Hk He. unfold task_erred. rewrite decide_True by done.
    rewrite stop_eq, He. repeat split.
    intros k' w' e' Hk' He'. rewrite decide_True by done.
    by rewrite stop_eq, He'.
  - intros Hk. unfold task_erred. by rewrite decide_False.
Qed.

Lemma wait_for_keys_returns (ks : gset Key) start s polls s' :
  wait_for_keys ks start s polls = Returns s' → ks ⊆ dask s'.
Proof.
  revert s. induction polls as [|[now s1] polls IH]; intros s; simpl.
  - case_decide; [by intros [= <-]|done].
  - case_decide; [by intros [= <-]|]. destruct (Qlt_le_dec _ _); [done|].
    apply IH.
Qed.

Lemma Progress_init_returns (self : nat) (targets : list target)
    (scheduler default_executor : option Scheduler) (minimum dt : Q)
    (env : Env) (p : Progress (gset Key)) (s' : Scheduler) :
  Progress_init self targets scheduler default_executor minimum dt env
  = Returns (p, s') →
  ∃ s0 s : Scheduler,
    find_scheduler scheduler default_executor = Returns s0
    ∧ wait_for_keys (list_to_set (target_key <$> targets)) (time_start env)
        s0 (polls env) = Returns s
    ∧ keys p = dependent_keys (who_has s) (processing s) (stacks s) (waiting s)
                 (elements (list_to_set (target_key <$> targets) : gset Key))
                 false
    ∧ all_keys p = keys p ∪ list_to_set (target_key <$> targets)
    ∧ s' = add_diagnostic self s
    ∧ status p = None.
Proof.
  unfold Progress_init. intros Hinit.
  destruct (find_scheduler scheduler default_executor) as [s0| |] eqn:Hs0;
    [|discriminate Hinit..].
  cbn [mbind outcome_mbind outcome_bind] in Hinit.
  destruct (wait_for_keys (list_to_set (target_key <$> targets))
              (time_start env) s0 (polls env)) as [s| |] eqn:Hs;
    [|discriminate Hinit..].
  cbn [mbind outcome_mbind outcome_bind Progress_init_f] in Hinit.
  injection Hinit as <- <-.
  exists s0, s. by repeat split.
Qed.

(** C1: a tracker that the constructor returned, on a scheduler where no
    plugin is registered twice, and that has reached ['finished'] or
    ['error'] in the course of any calls of [start] and any events
    dispatched by the scheduler, is no longer on the plugin list; the
    scheduler dispatches nothing further to it, so no subsequent
    [task_finished] or [task_erred], with any key, worker or payload,
    changes [status] or anything else: ['finished'] does not become
    ['error'] and ['error'] does not become ['finished']. *)
Theorem terminal_status_monotone (self : nat) (targets : list target)
    (scheduler default_executor : option Scheduler) (minimum dt : Q)
    (env : Env) (st0 : Progress (gset Key) * Scheduler)
    (acts : list action) :
  Progress_init self targets scheduler default_executor minimum dt env
  = Returns st0 →
  NoDup (diagnostics st0.2) →
  status (lifetime acts st0).1 = Some "finished"%string
  ∨ status (lifetime acts st0).1 = Some "error"%string →
  (self_id (lifetime acts st0).1 ∉ diagnostics (lifetime acts st0).2)
  ∧ (∀ ev, dispatch ev (lifetime acts st0) = lifetime acts st0)
  ∧ (∀ evs, status (lifetime (acts ++ (Callback <$> evs)) st0).1
            = status (lifetime acts st0).1).
Proof.
  intros Hinit Hnd Hterm. destruct st0 as [p s'].
  apply Progress_init_returns in Hinit as (_ & _ & _ & _ & _ & _ & _ & Hnone).
  destruct (lifetime_unregistered acts (p, s') Hnd) as [_ Hinv].
  { intros Hs. by destruct Hs. }
  assert (self_id (lifetime acts (p, s')).1
          ∉ diagnostics (lifetime acts (p, s')).2) as Hunreg.
  { apply Hinv. by destruct Hterm as [-> | ->]. }
  assert (∀ ev, dispatch ev (lifetime acts (p, s')) = lifetime acts (p, s'))
    as Hdispatch.
  { intros ev. unfold dispatch. by rewrite decide_False. }
  split; [done|]. split; [done|].
  intros evs. unfold lifetime at 1. rewrite foldl_app.
  fold (lifetime acts (p, s')). generalize dependent (lifetime acts (p, s')).
  intros st _ _ _ Hdispatch.
  induction evs as [|ev evs IH]; [done|].
  cbn [fmap list_fmap foldl act]. by rewrite Hdispatch.
Qed.

(** C5: a constructor call that returns has set [keys] to the pending
    closure of the targets over the scheduler state it found (with the
    scheduler's [waiting] map as dependency relation), [all_keys] to that
    closure together with the targets, and has registered the tracker;
    [keys ⊆ all_keys] and [targets ⊆ all_keys] hold then and after any
    sequence of [task_finished] and [task_erred] calls. *)
Theorem construction_invariants (self : nat) (targets : list target)
    (scheduler default_executor : option Scheduler) (minimum dt : Q)
    (env : Env) (p : Progress (gset Key)) (s' : Scheduler) :
  Progress_init self targets scheduler default_executor minimum dt env
  = Returns (p, s') →
  ∃ s0 s : Scheduler,
    find_scheduler scheduler default_executor = Returns s0
    ∧ wait_for_keys (list_to_set (target_key <$> targets)) (time_start env)
        s0 (polls env) = Returns s
    ∧ keys p = dependent_keys (who_has s) (processing s) (stacks s) (waiting s)
                 (elements (list_to_set (target_key <$> targets) : gset Key))
                 false
    ∧ all_keys p = keys p ∪ list_to_set (target_key <$> targets)
    ∧ s' = add_diagnostic self s
    ∧ keys p ⊆ all_keys p
    ∧ list_to_set (target_key <$> targets) ⊆ all_keys p
    ∧ ∀ evs : list event,
        keys (deliver_all evs (p, s')).1 ⊆ all_keys (deliver_all evs (p, s')).1
        ∧ list_to_set (target_key <$> targets)
          ⊆ all_keys (deliver_all evs (p, s')).1.
Proof.
  intros (s0 & s & Hs0 & Hs & Hkeys & Hall & Hs' & _)%Progress_init_returns.
  assert (keys p ⊆ all_keys p) as Hsub by (rewrite Hall; set_solver).
  assert (list_to_set (target_key <$> targets) ⊆ all_keys p) as Htargets
    by (rewrite Hall; set_solver).
  exists s0, s. do 7 (split; [assumption|]).
  intros evs. destruct (deliver_all_keys evs (p, s')) as [Ha Hk].
  simpl in Ha, Hk. rewrite Ha. split; [|assumption].
  by transitivity (keys p).
Qed.

End ProgressFacts.

Lemma scenario_b :
  status (task_erred (KStr "b") "w1" (PyException "boom") chain_tracker).1
  = Some "error"%string
  ∧ status (deliver_all [TaskErred (KStr "b") "w1" (PyException "boom");
                         TaskFinished (KStr "c") "w1" 8] chain_tracker).1
    = Some "error"%string.
Proof. compute_done. Qed.

Lemma terminal_status_monotone_witness :
  Progress_init 7 [Bare (KStr "c")] (Some chain_scheduler) None
    0%Q (1 # 10)%Q no_wait = Returns chain_tracker
  ∧ NoDup (diagnostics chain_tracker.2)
  ∧ status (lifetime [Start;
                      Callback (TaskErred (KStr "b") "w1" (PyException "boom"));
                      Callback (TaskFinished (KStr "a") "w1" 8);
                      Callback (TaskFinished (KStr "b") "w1" 8)]
              chain_tracker).1 = Some "error"%string
  ∧ status (lifetime ([Start;
                       Callback (TaskErred (KStr "b") "w1"
                                   (PyException "boom"));
                       Callback (TaskFinished (KStr "a") "w1" 8);
                       Callback (TaskFinished (KStr "b") "w1" 8)]
                      ++ (Callback <$> [TaskFinished (KStr "c") "w1" 8]))
              chain_tracker).1
    = status (lifetime [Start;
                        Callback (TaskErred (KStr "b") "w1"
                                    (PyException "boom"));
                        Callback (TaskFinished (KStr "a") "w1" 8);
                        Callback (TaskFinished (KStr "b") "w1" 8)]
                chain_tracker).1.
Proof.
  assert (Progress_init 7 [Bare (KStr "c")] (Some chain_scheduler) None
            0%Q (1 # 10)%Q no_wait = Returns chain_tracker) as Hinit.
  { apply (bool_decide_unpack _). vm_compute. exact I. }
  assert (NoDup (diagnostics chain_tracker.2)) as Hnd.
  { apply (bool_decide_unpack _). vm_compute. exact I. }
  assert (status (lifetime [Start;
                            Callback (TaskErred (KStr "b") "w1"
                                        (PyException "boom"));
                            Callback (TaskFinished (KStr "a") "w1" 8);
                            Callback (TaskFinished (KStr "b") "w1" 8)]
                    chain_tracker).1 = Some "error"%string) as Herr.
  { apply (bool_decide_unpack _). vm_compute. exact I. }
  split; [exact Hinit|]. split; [exact Hnd|]. split; [exact Herr|].
  exact (proj2 (proj2 (terminal_status_monotone 7 [Bare (KStr "c")]
                         (Some chain_scheduler) None 0%Q (1 # 10)%Q no_wait
                         chain_tracker
                         [Start;
                          Callback (TaskErred (KStr "b") "w1"
                                      (PyException "boom"));
                          Callback (TaskFinished (KStr "a") "w1" 8);
                          Callback (TaskFinished (KStr "b") "w1" 8)]
                         Hinit Hnd (or_intror Herr)))
           [TaskFinished (KStr "c") "w1" 8]).
Defined.

(** C4 as stated fails: the tracker reached by [task_erred] is the same
    whether ["b"] or ["c"] failed, so nothing read from it can be the key
    that failed. *)
Lemma task_erred_counterexample :
  ¬ ∃ lastErrorKey : Progress (gset Key) * Scheduler → option Key,
      lastErrorKey (task_erred (KStr "b") "w1" (PyException "boom")
                      chain_tracker) = Some (KStr "b")
      ∧ lastErrorKey (task_erred (KStr "c") "w1" (PyException "boom")
                        chain_tracker) = Some (KStr "c").
Proof.
  intros (f & Hb & Hc).
  assert (task_erred (KStr "b") "w1" (PyException "boom") chain_tracker
          = task_erred (KStr "c") "w1" (PyException "boom") chain_tracker)
    as Hsame by compute_done.
  rewrite Hsame, Hc in Hb. discriminate Hb.
Qed.

Lemma task_erred_amended_witness :
  KStr "b" ∈ all_keys chain_tracker.1
  ∧ truthy (PyException "boom") = true
  ∧ status (task_erred (KStr "b") "w1" (PyException "boom") chain_tracker).1
    = Some "error"%string.
Proof.
  assert (KStr "b" ∈ all_keys chain_tracker.1) as Hb.
  { apply (bool_decide_unpack _). vm_compute. exact I. }
  split; [exact Hb|]. split; [reflexivity|].
  exact (proj1 (proj1 (task_erred_amended chain_tracker (KStr "b") "w1"
                         (PyException "boom")) Hb eq_refl)).
Defined.

Lemma construction_invariants_witness :
  Progress_init 7 [Bare (KStr "c")] (Some chain_scheduler) None
    0%Q (1 # 10)%Q no_wait = Returns chain_tracker
  ∧ keys chain_tracker.1 ⊆ all_keys chain_tracker.1
  ∧ list_to_set (target_key <$> [Bare (KStr "c")]) ⊆ all_keys chain_tracker.1.
Proof.
  assert (Progress_init 7 [Bare (KStr "c")] (Some chain_scheduler) None
            0%Q (1 # 10)%Q no_wait = Returns chain_tracker) as Hinit.
  { apply (bool_decide_unpack _). vm_compute. exact I. }
  split; [exact Hinit|].
  destruct (construction_invariants 7 [Bare (KStr "c")] (Some chain_scheduler)
              None 0%Q (1 # 10)%Q no_wait chain_tracker.1 chain_tracker.2 Hinit)
    as (s0 & s & _ & _ & _ & _ & _ & Hsub & Htargets & _).
  split; [exact Hsub|exact Htargets].
Defined.

(** ** Waiting for the target keys *)

Lemma wait_for_keys_raises (ks : gset Key) start s polls e :
  wait_for_keys ks start s polls = Raises e →
  ∃ now s', (now, s') ∈ polls ∧ (start + 1 < now)%Q
            ∧ e = ValueError_keys_not_found (ks ∖ in_play s').
Proof.
  revert s. induction polls as [|[now s1] polls IH]; intros s; simpl.
  - by case_decide.
  - case_decide; [done|]. destruct (Qlt_le_dec _ _) as [Hlt|Hle].
    + intros [= <-]. exists now, s1. split; [by left|done].
    + intros (now' & s' & Hin & Hlt & ->)%IH.
      exists now', s'. split; [by right|done].
Qed.

(** While the targets are missing from the graph at every poll, the
    constructor fails as soon as a poll finds the budget of one second
    exceeded, and before registering anything. *)
Lemma wait_for_keys_timeout (ks : gset Key) start s polls :
  ¬ ks ⊆ dask s →
  (∀ now s', (now, s') ∈ polls → ¬ ks ⊆ dask s') →
  (∃ now s', (now, s') ∈ polls ∧ (start + 1 < now)%Q) →
  ∃ named, wait_for_keys ks start s polls
           = Raises (ValueError_keys_not_found named).
Proof.
  revert s. induction polls as [|[now s1] polls IH]; intros s Hs Hall Hex.
  - destruct Hex as (? & ? & []%elem_of_nil & _).
  - simpl. rewrite decide_False by done.
    destruct (Qlt_le_dec _ _) as [Hlt|Hle]; [by eexists|].
    apply IH.
    + apply (Hall now). by left.
    + intros now' s' Hin. apply (Hall now'). by right.
    + destruct Hex as (now' & s' & [Heq|Hin]%elem_of_cons & Hlt).
      * inversion Heq; subst. exfalso. by apply (Qle_not_lt _ _ Hle).
      * by exists now', s'.
Qed.

(** C6, where the code departs from it: neither target ["x"] nor target
    ["y"] is in the graph during the wait, and the error names only
    ["y"], because it reports [keys - scheduler.in_play] although the loop
    tested [scheduler.dask]. *)
Theorem keys_not_found_names_in_play_difference :
  Progress_init 7 [Bare (KStr "x"); Bare (KStr "y")] (Some scattered_scheduler)
    None 0%Q (1 # 10)%Q one_second_wait
  = Raises (ValueError_keys_not_found {[ KStr "y" ]})
  ∧ ({[ KStr "x"; KStr "y" ]} : gset Key) ∖ dask scattered_scheduler
    = {[ KStr "x"; KStr "y" ]}.
Proof. compute_done. Qed.

(** ** The grouped tracker *)

Section MultiProgressFacts.

Context {label : Type} `{Countable label}.
Variable func : Key → outcome label.

Local Abbreviation labelled := (labelled func).
Local Abbreviation grouped_of := (grouped_of func).

Implicit Types (d : gmap label (list Key)) (m : gmap label (gset Key))
  (k : Key) (l : label).

Lemma labelled_disjoint m l1 l2 s1 s2 :
  labelled m → m !! l1 = Some s1 → m !! l2 = Some s2 → l1 ≠ l2 → s1 ## s2.
Proof.
  intros Hlab H1 H2 Hne k Hk1 Hk2. apply Hne.
  pose proof (Hlab _ _ _ H1 Hk1) as E1. pose proof (Hlab _ _ _ H2 Hk2) as E2.
  congruence.
Qed.

Lemma bucket_total_insert m l s :
  m !! l = None → bucket_total (<[l:=s]> m) = size s + bucket_total m.
Proof.
  intros Hl. unfold bucket_total. by rewrite map_to_list_insert.
Qed.

Lemma in_bucket_insert m l s k :
  m !! l = None → in_bucket (<[l:=s]> m) k ↔ k ∈ s ∨ in_bucket m k.
Proof.
  intros Hl. unfold in_bucket. split.
  - intros (l' & s' & Hl' & Hk). destruct (decide (l = l')) as [->|Hne].
    + rewrite lookup_insert_eq in Hl'. left. congruence.
    + rewrite lookup_insert_ne in Hl' by done. right. eauto.
  - intros [Hk|(l' & s' & Hl' & Hk)].
    + exists l, s. by rewrite lookup_insert_eq.
    + exists l', s'. rewrite lookup_insert_ne; [done|]. congruence.
Qed.

(** Pairwise disjoint buckets add up to the size of what they cover. *)
Lemma bucket_total_cover m (X : gset Key) :
  (∀ l1 l2 s1 s2, m !! l1 = Some s1 → m !! l2 = Some s2 → l1 ≠ l2 → s1 ## s2) →
  (∀ k, in_bucket m k ↔ k ∈ X) →
  bucket_total m = size X.
Proof.
  revert X. induction m as [|l s m Hl IH] using map_ind; intros X Hdisj Hcov.
  - unfold bucket_total. rewrite map_to_list_empty. simpl.
    symmetry. apply size_empty_iff. intros k. split; [|set_solver].
    intros (l & s & Hl & _)%Hcov. by rewrite lookup_empty in Hl.
  - rewrite bucket_total_insert by done.
    assert (∀ k, in_bucket m k → k ∉ s) as Hfresh.
    { intros k (l' & s' & Hl' & Hk) Hks.
      assert (l ≠ l') as Hne by congruence.
      refine (Hdisj l l' s s' _ _ Hne k Hks Hk).
      - by rewrite lookup_insert_eq.
      - by rewrite lookup_insert_ne. }
    rewrite (IH (X ∖ s)).
    + rewrite <- size_union by set_solver. f_equal. apply set_eq. intros k.
      rewrite <- Hcov, in_bucket_insert by done.
      rewrite elem_of_union, elem_of_difference, <- Hcov,
        in_bucket_insert by done.
      destruct (decide (k ∈ s)); naive_solver.
    + intros l1 l2 s1 s2 H1 H2. apply Hdisj.
      * rewrite lookup_insert_ne; [done|congruence].
      * rewrite lookup_insert_ne; [done|congruence].
    + intros k. rewrite elem_of_difference, <- Hcov, in_bucket_insert by done.
      split; [|naive_solver]. intros Hk. split; [by right|by apply Hfresh].
Qed.

(** *** groupby *)

Lemma groupby_from_labelled d seq d' :
  (∀ l ks k, d !! l = Some ks → k ∈ ks → func k = Returns l) →
  groupby_from func d seq = Returns d' →
  ∀ l ks k, d' !! l = Some ks → k ∈ ks → func k = Returns l.
Proof.
  revert d. induction seq as [|item seq IH]; intros d Hd; simpl.
  - by intros [= <-].
  - destruct (func item) as [l0| |] eqn:Hitem; [|done..].
    apply IH. intros l ks k. destruct (decide (l0 = l)) as [->|Hne].
    + rewrite lookup_insert_eq. intros [= <-] [Hk|Hk]%elem_of_app.
      * destruct (d !! l) as [ks0|] eqn:Hl; simpl in Hk; [by eauto|].
        by apply elem_of_nil in Hk.
      * apply list_elem_of_singleton in Hk. by subst.
    + rewrite lookup_insert_ne by done. apply Hd.
Qed.

Lemma groupby_from_elem d seq d' k :
  groupby_from func d seq = Returns d' →
  (∃ l ks, d' !! l = Some ks ∧ k ∈ ks)
  ↔ (∃ l ks, d !! l = Some ks ∧ k ∈ ks) ∨ k ∈ seq.
Proof.
  revert d. induction seq as [|item seq IH]; intros d; simpl.
  - intros [= <-]. split; [by left|]. intros [|[]%elem_of_nil]. done.
  - destruct (func item) as [l0| |] eqn:Hitem; [|done..].
    intros Hd'. rewrite (IH _ Hd'), elem_of_cons. clear IH Hd'. split.
    + intros [(l & ks & Hl & Hk)|Hk]; [|by auto].
      destruct (decide (l0 = l)) as [->|Hne].
      * rewrite lookup_insert_eq in Hl. injection Hl as <-.
        apply elem_of_app in Hk as [Hk|Hk].
        -- destruct (d !! l) as [ks0|] eqn:Hl; simpl in Hk; [by eauto|].
           by apply elem_of_nil in Hk.
        -- apply list_elem_of_singleton in Hk. auto.
      * rewrite lookup_insert_ne in Hl by done. eauto.
    + intros [(l & ks & Hl & Hk)|[->|Hk]]; [| |by auto].
      * left. destruct (decide (l0 = l)) as [->|Hne].
        -- exists l, (ks ++ [item]). rewrite lookup_insert_eq, Hl. simpl.
           split; [done|]. apply elem_of_app. by left.
        -- exists l, ks. by rewrite lookup_insert_ne.
      * left. exists l0, (default [] (d !! l0) ++ [item]).
        rewrite lookup_insert_eq. split; [done|].
        apply elem_of_app. right. by left.
Qed.

(** [valmap(set, groupby(func, X))] for a set [X]: buckets labelled by
    [func] that cover exactly [X]. *)
Lemma groupby_partition (X : gset Key) d' :
  groupby func (elements X) = Returns d' →
  labelled (valmap_set d') ∧ ∀ k, in_bucket (valmap_set d') k ↔ k ∈ X.
Proof.
  unfold groupby, valmap_set, labelled, in_bucket. intros Hd'. split.
  - intros l s k (ks & <- & Hl)%lookup_fmap_Some Hk%elem_of_list_to_set.
    revert l ks k Hl Hk. apply (groupby_from_labelled ∅ (elements X)); [|done].
    intros l ks k Hl. by rewrite lookup_empty in Hl.
  - intros k. rewrite <- elem_of_elements. split.
    + intros (l & s & (ks & <- & Hl)%lookup_fmap_Some & Hk%elem_of_list_to_set).
      destruct (proj1 (groupby_from_elem ∅ _ _ k Hd')) as [(? & ? & E & _)|];
        [by eauto| |done].
      by rewrite lookup_empty in E.
    + intros Hk.
      destruct (proj2 (groupby_from_elem ∅ _ _ k Hd')) as (l & ks & Hl & Hks);
        [by right|].
      exists l, (list_to_set ks). rewrite lookup_fmap, Hl. simpl.
      split; [done|]. by apply elem_of_list_to_set.
Qed.

(** *** The grouped tracker follows the ungrouped one *)

Lemma regroup_grouped_of (self : Progress (gset Key)) mp :
  regroup func self = Returns mp → grouped_of self mp.
Proof.
  unfold regroup.
  destruct (groupby func (elements (keys self))) as [gk| |] eqn:Hgk; [|done..].
  destruct (groupby func (elements (all_keys self))) as [ga| |] eqn:Hga;
    [|done..].
  intros [= <-].
  destruct (groupby_partition _ _ Hgk) as [? ?].
  destruct (groupby_partition _ _ Hga) as [? ?].
  by split.
Qed.

Lemma grouped_totals p mp :
  grouped_of p mp →
  bucket_total (keys mp) = size (keys p)
  ∧ bucket_total (all_keys mp) = size (all_keys p).
Proof.
  intros [Hkl Hkc Hal Hac _ _]. split.
  - apply bucket_total_cover; [|done]. intros ?????. by apply labelled_disjoint.
  - apply bucket_total_cover; [|done]. intros ?????. by apply labelled_disjoint.
Qed.

(** The test [not self.keys or not any(self.keys.values())] holds exactly
    when the buckets cover nothing. *)
Lemma all_buckets_empty m (X : gset Key) :
  (∀ k, in_bucket m k ↔ k ∈ X) →
  bool_decide (m = ∅) || negb (any_values m) = bool_decide (X = ∅).
Proof.
  intros Hcov. unfold any_values.
  destruct (decide (X = ∅)) as [->|HX].
  - rewrite (bool_decide_eq_true_2 (∅ = ∅)) by done.
    apply orb_true_iff. right. apply negb_true_iff, bool_decide_eq_false.
    intros (l & s & Hl & Hs)%map_Exists_lookup.
    apply set_choose_L in Hs as [k Hk].
    apply (not_elem_of_empty (C:=gset Key) k), Hcov. by exists l, s.
  - rewrite (bool_decide_eq_false_2 (X = ∅)) by done.
    apply set_choose_L in HX as [k (l & s & Hl & Hk)%Hcov].
    apply orb_false_iff. split.
    + apply bool_decide_eq_false. intros ->. by rewrite lookup_empty in Hl.
    + apply negb_false_iff, bool_decide_eq_true, map_Exists_lookup.
      exists l, s. split; [done|]. set_solver.
Qed.

(** Removing [key] from the bucket of its label removes it from what the
    buckets cover. *)
Lemma remove_from_bucket m (X : gset Key) key l :
  func key = Returns l → labelled m → (∀ k, in_bucket m k ↔ k ∈ X) →
  let m' := match m !! l with
            | Some s => if decide (s ≠ ∅ ∧ key ∈ s)
                        then <[l := s ∖ {[key]}]> m else m
            | None => m
            end in
  labelled m' ∧ ∀ k, in_bucket m' k ↔ k ∈ X ∖ {[key]}.
Proof.
  intros Hkey Hlab Hcov.
  assert (∀ l' s', m !! l' = Some s' → key ∈ s' → l' = l) as Huniq.
  { intros l' s' Hl' Hk. pose proof (Hlab _ _ _ Hl' Hk). congruence. }
  destruct (m !! l) as [s|] eqn:Hl; simpl; [case_decide as Hin|].
  - split.
    + intros l' s' k. destruct (decide (l = l')) as [<-|Hne].
      * rewrite lookup_insert_eq. intros [= <-] Hk. apply (Hlab l s); set_solver.
      * rewrite lookup_insert_ne by done. apply Hlab.
    + intros k. rewrite elem_of_difference, <- Hcov. unfold in_bucket. split.
      * intros (l' & s' & Hl' & Hk). destruct (decide (l = l')) as [<-|Hne].
        -- rewrite lookup_insert_eq in Hl'. injection Hl' as <-.
           split; [exists l, s|]; set_solver.
        -- rewrite lookup_insert_ne in Hl' by done. split; [by exists l', s'|].
           intros ->%elem_of_singleton. apply Hne. symmetry. by eapply Huniq.
      * intros [(l' & s' & Hl' & Hk) Hne].
        destruct (decide (l = l')) as [<-|Hne'].
        -- exists l, (s ∖ {[key]}). rewrite lookup_insert_eq.
           split; [done|]. rewrite Hl in Hl'. injection Hl' as <-. set_solver.
        -- exists l', s'. by rewrite lookup_insert_ne.
  - split; [done|]. intros k. rewrite elem_of_difference, <- Hcov.
    split; [|naive_solver]. intros (l' & s' & Hl' & Hk). split; [by exists l', s'|].
    intros ->%elem_of_singleton. apply Hin.
    rewrite (Huniq _ _ Hl' Hk), Hl in Hl'. injection Hl' as <-. set_solver.
  - split; [done|]. intros k. rewrite elem_of_difference, <- Hcov.
    split; [|naive_solver]. intros (l' & s' & Hl' & Hk). split; [by exists l', s'|].
    intros ->%elem_of_singleton.
    rewrite (Huniq _ _ Hl' Hk), Hl in Hl'. done.
Qed.

Lemma multi_task_finished_follows p mp s key (w : worker) (n : Z) mp' s' :
  grouped_of p mp →
  multi_task_finished func key w n (mp, s) = Returns (mp', s') →
  grouped_of (task_finished key w n (p, s)).1 mp'
  ∧ s' = (task_finished key w n (p, s)).2
  ∧ all_keys mp' = all_keys mp.
Proof.
  intros [Hkl Hkc Hal Hac Hst Hid]. unfold multi_task_finished.
  destruct (func key) as [l| |] eqn:Hkey; [|done..].
  destruct (remove_from_bucket _ _ _ _ Hkey Hkl Hkc) as [Hkl' Hkc'].
  rewrite task_finished_eq. simpl.
  set (m' := match keys mp !! l with
             | Some s0 => if decide (s0 ≠ ∅ ∧ key ∈ s0)
                          then <[l := s0 ∖ {[key]}]> (keys mp) else keys mp
             | None => keys mp
             end) in *.
  assert (keys (match keys mp !! l with
                | Some s0 => if decide (s0 ≠ ∅ ∧ key ∈ s0)
                             then set_keys (<[l := s0 ∖ {[key]}]> (keys mp)) mp
                             else mp
                | None => mp
                end) = m') as Hm'.
  { unfold m'. destruct (keys mp !! l); [case_decide|]; done. }
  assert (match keys mp !! l with
          | Some s0 => if decide (s0 ≠ ∅ ∧ key ∈ s0)
                       then set_keys (<[l := s0 ∖ {[key]}]> (keys mp)) mp
                       else mp
          | None => mp
          end = set_keys m' mp) as ->.
  { unfold m'. destruct (keys mp !! l); [case_decide|]; by destruct mp. }
  simpl. rewrite (all_buckets_empty _ _ Hkc').
  destruct (decide (keys p ∖ {[key]} = ∅)) as [Hempty|Hsome].
  - rewrite bool_decide_eq_true_2 by done. rewrite Hid.
    intros [= <- <-]. simpl. split; [by split|done].
  - rewrite bool_decide_eq_false_2 by done.
    intros [= <- <-]. simpl. split; [by split|done].
Qed.

Lemma multi_task_erred_follows p mp s key (w : worker) e mp' s' :
  grouped_of p mp →
  multi_task_erred func key w e (mp, s) = Returns (mp', s') →
  grouped_of (task_erred key w e (p, s)).1 mp'
  ∧ s' = (task_erred key w e (p, s)).2
  ∧ all_keys mp' = all_keys mp.
Proof.
  intros [Hkl Hkc Hal Hac Hst Hid]. unfold multi_task_erred, task_erred.
  destruct (func key) as [l| |] eqn:Hkey; [|done..].
  cbn [mbind outcome_mbind outcome_bind fst snd].
  assert (key ∈ all_keys p ↔ ∃ s0, all_keys mp !! l = Some s0 ∧ key ∈ s0)
    as Hin.
  { rewrite <- Hac. split; [|by intros (s0 & ? & ?); exists l, s0].
    intros (l' & s0 & Hl' & Hk). exists s0. split; [|done].
    pose proof (Hal _ _ _ Hl' Hk). congruence. }
  destruct (decide (key ∈ all_keys p)) as [Hp|Hp].
  - destruct (proj1 Hin Hp) as (s0 & -> & Hk). rewrite decide_True by done.
    rewrite !stop_eq. cbn [fst snd]. rewrite Hid.
    intros [= <- <-]. split; [by split|done].
  - assert (match all_keys mp !! l with
            | Some s0 => if decide (key ∈ s0)
                         then Returns (stop e (Some key) (mp, s))
                         else Returns (mp, s)
            | None => Returns (mp, s)
            end = Returns (mp, s)) as ->.
    { destruct (all_keys mp !! l) as [s0|] eqn:Hl; [|done].
      rewrite decide_False; [done|]. intros Hk. apply Hp, Hin. eauto. }
    intros [= <- <-]. split; [by split|done].
Qed.

Lemma multi_deliver_all_follows evs p mp s mp' s' :
  grouped_of p mp →
  multi_deliver_all func evs (mp, s) = Returns (mp', s') →
  grouped_of (deliver_all evs (p, s)).1 mp'
  ∧ s' = (deliver_all evs (p, s)).2
  ∧ all_keys mp' = all_keys mp.
Proof.
  revert p mp s. induction evs as [|ev evs IH]; intros p mp s Hg; simpl.
  - by intros [= <- <-].
  - destruct (multi_deliver func ev (mp, s)) as [[mp1 s1]| |] eqn:Hev;
      [|done..].
    intros Hrest. unfold deliver_all. simpl.
    assert (grouped_of (deliver ev (p, s)).1 mp1
            ∧ s1 = (deliver ev (p, s)).2
            ∧ all_keys mp1 = all_keys mp) as (Hg1 & -> & <-).
    { destruct ev as [k w n|k w e]; simpl in *.
      - by apply (multi_task_finished_follows p mp s k w n).
      - by apply (multi_task_erred_follows p mp s k w e). }
    destruct (deliver ev (p, s)) as [p1 s1] eqn:Hd. simpl in *.
    by apply IH.
Qed.

(** C7: the buckets of [all_keys] made by [MultiProgress.__init__] cover
    exactly the ungrouped [all_keys]; a key lies only in the bucket of
    its own label, so distinct buckets are disjoint; the bucket sizes add
    up to the sizes of the ungrouped [all_keys] and [keys]; and this
    stays so after any sequence of callbacks, where the grouped tracker
    keeps the pending keys and the status of the ungrouped one. *)
Theorem grouped_partition (self : Progress (gset Key)) (scheduler : Scheduler)
    (mp : Progress (gmap label (gset Key))) :
  regroup func self = Returns mp →
  (∀ k, in_bucket (all_keys mp) k ↔ k ∈ all_keys self)
  ∧ (∀ k l s, all_keys mp !! l = Some s → k ∈ s → func k = Returns l)
  ∧ (∀ l1 l2 s1 s2, all_keys mp !! l1 = Some s1 → all_keys mp !! l2 = Some s2 →
                    l1 ≠ l2 → s1 ## s2)
  ∧ bucket_total (all_keys mp) = size (all_keys self)
  ∧ bucket_total (keys mp) = size (keys self)
  ∧ ∀ evs mp' s',
      multi_deliver_all func evs (mp, scheduler) = Returns (mp', s') →
      all_keys mp' = all_keys mp
      ∧ (∀ k, in_bucket (keys mp') k
              ↔ k ∈ keys (deliver_all evs (self, scheduler)).1)
      ∧ bucket_total (keys mp')
        = size (keys (deliver_all evs (self, scheduler)).1)
      ∧ bucket_total (all_keys mp')
        = size (all_keys (deliver_all evs (self, scheduler)).1)
      ∧ status mp' = status (deliver_all evs (self, scheduler)).1.
Proof.
  intros Hg%regroup_grouped_of.
  destruct (grouped_totals _ _ Hg) as [Hk Ha].
  split; [apply Hg|]. split; [intros k l s; apply Hg|].
  split; [intros l1 l2 s1 s2; apply labelled_disjoint, Hg|].
  split; [done|]. split; [done|].
  intros evs mp' s' (Hg' & _ & Hall)%(multi_deliver_all_follows _ _ _ _ _ _ Hg).
  destruct (grouped_totals _ _ Hg') as [Hk' Ha'].
  split; [done|]. split; [apply Hg'|]. split; [done|]. split; [done|].
  apply Hg'.
Qed.

End MultiProgressFacts.

(** *** Scenario C *)

Lemma xy_tracker_constructed :
  MultiProgress_init key_split 7 xy_targets (Some xy_scheduler) None
    0%Q (1 # 10)%Q no_wait = Returns xy_tracker.
Proof. compute_done. Qed.

Lemma xy_regrouped :
  regroup key_split xy_ungrouped = Returns xy_tracker.1.
Proof. compute_done. Qed.

Lemma grouped_partition_witness :
  regroup key_split xy_ungrouped = Returns xy_tracker.1
  ∧ bucket_total (all_keys xy_tracker.1) = size (all_keys xy_ungrouped)
  ∧ bucket_total (keys xy_tracker.1) = size (keys xy_ungrouped).
Proof.
  assert (regroup key_split xy_ungrouped = Returns xy_tracker.1) as Hre.
  { apply (bool_decide_unpack _). vm_compute. exact I. }
  split; [exact Hre|].
  destruct (grouped_partition key_split xy_ungrouped xy_scheduler
              xy_tracker.1 Hre) as (_ & _ & _ & Hall & Hkeys & _).
  split; [exact Hall|exact Hkeys].
Defined.

(** *** key_split *)

Lemma rsplit_hyphen_none (s : string) :
  has_hyphen s = false → rsplit_hyphen s = None.
Proof.
  induction s as [|c s IH]; simpl; [done|].
  intros [Hc Hs]%orb_false_iff. by rewrite IH, Hc.
Qed.

Lemma rsplit_hyphen_suffix (name suffix : string) :
  has_hyphen suffix = false →
  rsplit_hyphen (name +:+ "-" +:+ suffix) = Some name.
Proof.
  intros Hs. induction name as [|c name IH]; simpl.
  - by rewrite rsplit_hyphen_none.
  - simpl in IH. by rewrite IH.
Qed.

(** C8: [key_split] drops the last hyphen of a string key and what follows
    it, and takes a tuple key to the label of its first element.  Grouped
    by it, the keys [x-1], [x-2], [y-1] form the buckets [x: {x-1, x-2}]
    and [y: {y-1}]; once [x-1] and [x-2] are reported finished the bucket
    of [x] is empty and [status] is still [None]; it becomes ['finished']
    only with [y-1]. *)
Theorem scenario_c (name suffix : string) (k : Key) (ks : list Key) :
  has_hyphen suffix = false →
  key_split (KStr (name +:+ "-" +:+ suffix)) = Returns name
  ∧ key_split (KTuple (k :: ks)) = key_split k
  ∧ MultiProgress_init key_split 7 xy_targets (Some xy_scheduler) None
      0%Q (1 # 10)%Q no_wait = Returns xy_tracker
  ∧ keys xy_tracker.1 = {[ "x"%string := {[ KStr "x-1"; KStr "x-2" ]};
                           "y"%string := {[ KStr "y-1" ]} ]}
  ∧ multi_deliver_all key_split
      [TaskFinished (KStr "x-1") "w1" 8; TaskFinished (KStr "x-2") "w1" 8]
      xy_tracker
    = Returns (set_keys {[ "x"%string := ∅; "y"%string := {[ KStr "y-1" ]} ]}
                 xy_tracker.1, xy_tracker.2)
  ∧ status xy_tracker.1 = None
  ∧ multi_deliver_all key_split
      [TaskFinished (KStr "x-1") "w1" 8; TaskFinished (KStr "x-2") "w1" 8;
       TaskFinished (KStr "y-1") "w1" 8]
      xy_tracker
    = Returns (set_status (Some "finished"%string)
                 (set_keys {[ "x"%string := ∅; "y"%string := ∅ ]} xy_tracker.1),
               xy_scheduler).
Proof.
  intros Hs. split.
  { simpl. by rewrite rsplit_hyphen_suffix. }
  split; [done|]. compute_done.
Qed.

Lemma scenario_c_witness :
  has_hyphen "1" = false
  ∧ key_split (KStr "x-1") = Returns "x"%string
  ∧ key_split (KTuple [KStr "x-2"; KInt 1]) = key_split (KStr "x-2").
Proof.
  split; [reflexivity|].
  destruct (scenario_c "x" "1" (KStr "x-2") [KInt 1] eq_refl)
    as (Hstr & Htuple & _).
  split; [exact Hstr|exact Htuple].
Defined.

(** ** format_time *)

(** C9, amended: [format_time(10.4)] is ['10.4s'], [format_time(1000.4)]
    is ['16min 40.4s'], and [format_time(3661)] is [' 1hr  1min  1.0s']:
    hours and minutes are printed in a field of two characters. *)
Theorem format_time_examples :
  format_time (NFloat 10.4) = Returns "10.4s"%string
  ∧ format_time (NFloat 1000.4) = Returns "16min 40.4s"%string
  ∧ format_time (NInt 3661) = Returns " 1hr  1min  1.0s"%string.
Proof. compute_done. Qed.

(** C9 as stated fails on its third example. *)
Lemma format_time_counterexample :
  format_time (NInt 3661) ≠ Returns "1hr 1min  1.0s"%string.
Proof. compute_done. Qed.

(** * Part IV: further properties of the code *)

(** ** dependent_keys *)

Section DependentKeysMore.

Variable who_has : gmap Key (gset worker).
Variable processing : gset Key.
Variable stacks : gset Key.
Variable dependencies : gmap Key (list Key).

Local Abbreviation satisfied := (satisfied who_has processing stacks).
Local Abbreviation dependencies_get := (dependencies_get dependencies).
Local Abbreviation dependent_keys :=
  (dependent_keys who_has processing stacks dependencies).
Local Abbreviation admissible := (admissible who_has processing stacks).
Local Abbreviation closure :=
  (closure who_has processing stacks dependencies).
Local Abbreviation dependency_chain := (dependency_chain dependencies).

Lemma dependency_chain_snoc (path : list Key) (k k' : Key) :
  dependency_chain (path ++ [k]) → k' ∈ dependencies_get k →
  dependency_chain ((path ++ [k]) ++ [k']).
Proof.
  induction path as [|x [|y path] IH]; simpl; intros Hc Hk'.
  - done.
  - destruct Hc as [Hxk _]. done.
  - destruct Hc as [Hxy Hc]. split; [done|]. by apply IH.
Qed.

Lemma dependency_chain_snoc_inv (path : list Key) (k k' : Key) :
  dependency_chain ((path ++ [k]) ++ [k']) →
  dependency_chain (path ++ [k]) ∧ k' ∈ dependencies_get k.
Proof.
  induction path as [|x [|y path] IH]; simpl; intros Hc.
  - by destruct Hc.
  - destruct Hc as [Hxk [Hkk' _]]. done.
  - destruct Hc as [Hxy Hc]. destruct (IH Hc) as [Hc' Hk']. done.
Qed.

Lemma closure_chain (complete : bool) (keys : list Key) (k : Key) :
  closure complete keys k ↔
  ∃ path k0, head path = Some k0 ∧ k0 ∈ keys ∧ last path = Some k
             ∧ dependency_chain path
             ∧ Forall (λ x, admissible complete x = true) path.
Proof.
  split.
  - induction 1 as [k Hk Hadm|k k' _ IH Hd Hadm].
    + exists [k], k. repeat split; auto.
    + destruct IH as (path & k0 & Hhead & Hk0 & Hlast & Hchain & Hall).
      destruct path as [|x path _] using rev_ind; [done|].
      rewrite last_snoc in Hlast. injection Hlast as ->.
      exists ((path ++ [k]) ++ [k']), k0. repeat split.
      * destruct path; simpl in *; done.
      * done.
      * by rewrite last_snoc.
      * by apply dependency_chain_snoc.
      * apply Forall_app. split; [done|]. by apply Forall_singleton.
  - intros (path & k0 & Hhead & Hk0 & Hlast & Hchain & Hall).
    revert k Hlast Hchain Hall.
    induction path as [|x path IH] using rev_ind; intros k Hlast Hchain Hall;
      [done|].
    rewrite last_snoc in Hlast. injection Hlast as ->.
    apply Forall_app in Hall as [Hall Hx]. rewrite Forall_singleton in Hx.
    destruct path as [|y path _] using rev_ind.
    + simpl in Hhead. injection Hhead as ->. by apply closure_target.
    + apply dependency_chain_snoc_inv in Hchain as [Hchain Hd].
      apply closure_dep with y; [|done..].
      apply IH; [|by rewrite last_snoc|done..].
      destruct path; simpl in *; done.
Qed.

(** X1: [dependent_keys(keys, ..., complete=False)] is exactly the set of
    keys that end a chain of dependencies starting at one of [keys] and
    passing only through keys that are not satisfied; with [complete=True]
    every chain counts. *)
Theorem dependent_keys_chains (keys : list Key) (k : Key) :
  (k ∈ dependent_keys keys false ↔
   ∃ path k0, head path = Some k0 ∧ k0 ∈ keys ∧ last path = Some k
              ∧ dependency_chain path
              ∧ Forall (λ x, satisfied x = false) path)
  ∧ (k ∈ dependent_keys keys true ↔
     ∃ path k0, head path = Some k0 ∧ k0 ∈ keys ∧ last path = Some k
                ∧ dependency_chain path).
Proof.
  rewrite !dependent_keys_closure, !closure_chain. split.
  - split; intros (path & k0 & ? & ? & ? & ? & Hall); exists path, k0;
      repeat split; try done.
    + eapply Forall_impl; [exact Hall|]. intros x. unfold admissible. simpl.
      by destruct (satisfied x).
    + eapply Forall_impl; [exact Hall|]. intros x Hx. unfold admissible.
      simpl. by rewrite Hx.
  - split.
    + intros (path & k0 & ? & ? & ? & ? & _). by exists path, k0.
    + intros (path & k0 & ? & ? & ? & ?). exists path, k0.
      repeat split; try done. by apply Forall_true.
Qed.

(** X2: running [dependent_keys] again on its own result gives the same
    set. *)
Theorem dependent_keys_idempotent (keys : list Key) (complete : bool) :
  dependent_keys (elements (dependent_keys keys complete)) complete
  = dependent_keys keys complete.
Proof.
  apply set_eq. intros k. rewrite !dependent_keys_closure. split.
  - induction 1 as [k Hk Hadm|k k' _ IH Hd Hadm].
    + by apply elem_of_elements, dependent_keys_closure in Hk.
    + by apply closure_dep with k.
  - intros Hk. apply closure_target.
    + by apply elem_of_elements, dependent_keys_closure.
    + by apply closure_admissible in Hk.
Qed.

Lemma closure_app (complete : bool) (keys1 keys2 : list Key) (k : Key) :
  closure complete (keys1 ++ keys2) k
  ↔ closure complete keys1 k ∨ closure complete keys2 k.
Proof.
  split.
  - induction 1 as [k [Hk|Hk]%elem_of_app Hadm|k k' _ [IH|IH] Hd Hadm].
    + left. by apply closure_target.
    + right. by apply closure_target.
    + left. by apply closure_dep with k.
    + right. by apply closure_dep with k.
  - intros [Hk|Hk]; induction Hk as [k Hk Hadm|k k' _ IH Hd Hadm].
    + apply closure_target; [|done]. apply elem_of_app. by left.
    + by apply closure_dep with k.
    + apply closure_target; [|done]. apply elem_of_app. by right.
    + by apply closure_dep with k.
Qed.

(** X3: the result for two lists of targets together is the union of the
    results for each, and no targets give the empty set. *)
Theorem dependent_keys_app (keys1 keys2 : list Key) (complete : bool) :
  dependent_keys (keys1 ++ keys2) complete
  = dependent_keys keys1 complete ∪ dependent_keys keys2 complete
  ∧ dependent_keys [] complete = ∅.
Proof.
  split.
  - apply set_eq. intros k.
    rewrite elem_of_union, !dependent_keys_closure. apply closure_app.
  - apply set_eq. intros k. rewrite dependent_keys_closure. split.
    + induction 1 as [k Hk Hadm|k k' _ IH Hd Hadm]; [|done].
      by apply elem_of_nil in Hk.
    + set_solver.
Qed.

(** X4: the pending closure is part of the full closure, which contains
    every target; the pending closure contains every target that is not
    satisfied. *)
Theorem dependent_keys_targets (keys : list Key) :
  dependent_keys keys false ⊆ dependent_keys keys true
  ∧ list_to_set keys ⊆ dependent_keys keys true
  ∧ list_to_set (filter (λ k, satisfied k = false) keys)
    ⊆ dependent_keys keys false.
Proof.
  split; [|split]; intros k.
  - rewrite dependent_keys_complete, dependent_keys_closure.
    apply closure_reachable.
  - rewrite elem_of_list_to_set, dependent_keys_complete.
    apply reachable_target.
  - rewrite elem_of_list_to_set, list_elem_of_filter, dependent_keys_closure.
    intros [Hk Hin]. apply closure_target; [done|]. unfold admissible.
    by rewrite Hk.
Qed.

(** X5: targets without recorded dependencies are leaves: the result is
    then the targets themselves, less the satisfied ones when
    [complete=False]. *)
Theorem dependent_keys_leaves (keys : list Key) (complete : bool) :
  (∀ k, k ∈ keys → dependencies_get k = []) →
  dependent_keys keys complete
  = list_to_set (filter (λ k, admissible complete k = true) keys).
Proof.
  intros Hleaf. apply set_eq. intros k.
  rewrite elem_of_list_to_set, list_elem_of_filter, dependent_keys_closure.
  split.
  - assert (closure complete keys k →
            admissible complete k = true ∧ k ∈ keys) as Hgo; [|done].
    induction 1 as [k Hk Hadm|k k' _ [_ IH] Hd Hadm]; [done|].
    rewrite (Hleaf k IH) in Hd. by apply elem_of_nil in Hd.
  - intros [Hadm Hk]. by apply closure_target.
Qed.

End DependentKeysMore.

Lemma closure_ext (who_has : gmap Key (gset worker))
    (processing stacks : gset Key) (deps1 deps2 : gmap Key (list Key))
    (keys1 keys2 : list Key) (complete : bool) (k : Key) :
  (∀ x, x ∈ keys1 → x ∈ keys2) →
  (∀ x y, y ∈ dependencies_get deps1 x → y ∈ dependencies_get deps2 x) →
  closure who_has processing stacks deps1 complete keys1 k →
  closure who_has processing stacks deps2 complete keys2 k.
Proof.
  intros Hkeys Hdeps. induction 1 as [k Hk Hadm|k k' _ IH Hd Hadm].
  - apply closure_target; auto.
  - apply closure_dep with k; auto.
Qed.

(** X6: the result does not depend on the order in which the targets or
    the dependencies of a key are iterated, nor on repetitions among
    them. *)
Theorem dependent_keys_order_irrelevant (who_has : gmap Key (gset worker))
    (processing stacks : gset Key) (deps1 deps2 : gmap Key (list Key))
    (keys1 keys2 : list Key) (complete : bool) :
  (∀ x, x ∈ keys1 ↔ x ∈ keys2) →
  (∀ x y, y ∈ dependencies_get deps1 x ↔ y ∈ dependencies_get deps2 x) →
  dependent_keys who_has processing stacks deps1 keys1 complete
  = dependent_keys who_has processing stacks deps2 keys2 complete.
Proof.
  intros Hkeys Hdeps. apply set_eq. intros k.
  rewrite !dependent_keys_closure. split; apply closure_ext.
  - intros x. apply Hkeys.
  - intros x y. apply Hdeps.
  - intros x. apply Hkeys.
  - intros x y. apply Hdeps.
Qed.

(** ** Progress.__init__ *)

Lemma wait_for_keys_present (ks : gset Key) start s polls :
  ks ⊆ dask s → wait_for_keys ks start s polls = Returns s.
Proof. intros Hks. destruct polls; simpl; by rewrite decide_True. Qed.

(** X7: the constructor fails in two ways only: at once, when no scheduler
    is given and none can be found, or with "Keys not found" after a sleep
    that ended more than one second after the start. *)
Theorem Progress_init_failures (self : nat) (targets : list target)
    (scheduler default_executor : option Scheduler) (minimum dt : Q)
    (env : Env) (e : exn) :
  Progress_init self targets scheduler default_executor minimum dt env
  = Raises e →
  (scheduler = None ∧ default_executor = None ∧ e = ValueError_no_scheduler)
  ∨ (∃ now s', (now, s') ∈ polls env ∧ (time_start env + 1 < now)%Q
               ∧ e = ValueError_keys_not_found
                       (list_to_set (target_key <$> targets) ∖ in_play s')).
Proof.
  unfold Progress_init, find_scheduler. intros Hinit.
  destruct scheduler as [s|]; [|destruct default_executor as [s|]];
    cbn [mbind outcome_mbind outcome_bind] in Hinit.
  3: { left. by injection Hinit as <-. }
  all: right;
    destruct (wait_for_keys (list_to_set (target_key <$> targets))
                (time_start env) s (polls env)) as [s1|e1|] eqn:Hwait;
    cbn [mbind outcome_mbind outcome_bind Progress_init_f] in Hinit;
    [discriminate Hinit| |discriminate Hinit];
    injection Hinit as ->; by apply wait_for_keys_raises in Hwait.
Qed.

(** X8: when every target is in the graph already, the constructor
    returns without sleeping or reading the clock again: whatever the
    polls would bring, the tracker is registered on the scheduler as it
    was found, with [status] [None]. *)
Theorem Progress_init_immediate (self : nat) (targets : list target)
    (s : Scheduler) (default_executor : option Scheduler) (minimum dt : Q)
    (env : Env) :
  list_to_set (target_key <$> targets) ⊆ dask s →
  ∃ p, Progress_init self targets (Some s) default_executor minimum dt env
       = Returns (p, add_diagnostic self s)
       ∧ status p = None ∧ self_id p = self
       ∧ _start_time p = timer_start env ∧ _running p = false.
Proof.
  intros Hks. unfold Progress_init, find_scheduler.
  cbn [mbind outcome_mbind outcome_bind].
  rewrite wait_for_keys_present by done.
  cbn [mbind outcome_mbind outcome_bind Progress_init_f]. by eexists.
Qed.

(** X9: the scheduler state the wait loop hands on is the one found at
    the start or one found after a sleep that ended within the second, and
    in it every target is in the graph. *)
Theorem wait_for_keys_within_budget (ks : gset Key) (start : Q)
    (s : Scheduler) (polls : list (Q * Scheduler)) (s' : Scheduler) :
  wait_for_keys ks start s polls = Returns s' →
  ks ⊆ dask s'
  ∧ (s' = s ∨ ∃ now, (now, s') ∈ polls ∧ (now <= start + 1)%Q).
Proof.
  revert s. induction polls as [|[now s1] polls IH]; intros s; simpl.
  - case_decide; [|done]. intros [= <-]. split; [done|by left].
  - case_decide; [intros [= <-]; split; [done|by left]|].
    destruct (Qlt_le_dec _ _) as [Hlt|Hle]; [done|].
    intros [Hks [->|(now' & Hin & Hnow)]]%IH; (split; [done|right]).
    + exists now. split; [by left|done].
    + exists now'. split; [by right|done].
Qed.

(** ** Progress.start and Progress.stop *)

Lemma set_diagnostics_id (s : Scheduler) :
  set_diagnostics (diagnostics s) s = s.
Proof. by destruct s. Qed.

Lemma list_remove_snoc (x : nat) (l : list nat) :
  x ∉ l → list_remove x (l ++ [x]) = l.
Proof.
  induction l as [|y l IH]; intros Hx; simpl.
  - by rewrite decide_True.
  - rewrite decide_False by set_solver. f_equal. apply IH. set_solver.
Qed.

(** X10: when every target is already satisfied in the scheduler state
    the constructor finds, nothing is pending, and [start] finishes the
    tracker at once and takes it off the plugin list again, leaving the
    scheduler as it was before the constructor ran. *)
Theorem start_after_satisfied_construction (self : nat)
    (targets : list target) (scheduler default_executor : option Scheduler)
    (minimum dt : Q) (env : Env) (p : Progress (gset Key)) (s' : Scheduler) :
  Progress_init self targets scheduler default_executor minimum dt env
  = Returns (p, s') →
  (∀ k, k ∈ target_key <$> targets →
        satisfied (who_has s') (processing s') (stacks s') k = true) →
  keys p = ∅
  ∧ all_keys p = list_to_set (target_key <$> targets)
  ∧ status (start (p, s')).1 = Some "finished"%string
  ∧ ∃ s, s' = add_diagnostic self s
         ∧ (self ∉ diagnostics s → (start (p, s')).2 = s).
Proof.
  intros Hinit Hsat.
  pose proof Hinit as
    (s0 & s & Hs0 & Hs & Hkeys & Hall & -> & Hst)%Progress_init_returns.
  assert (keys p = ∅) as Hempty.
  { rewrite Hkeys. apply set_eq. intros k.
    rewrite dependent_keys_closure. split; [|set_solver].
    induction 1 as [k Hk Hadm|k k' _ IH Hd Hadm]; [|done].
    apply elem_of_elements, elem_of_list_to_set in Hk.
    unfold admissible in Hadm. simpl in Hadm.
    change (who_has s) with (who_has (add_diagnostic self s)) in Hadm.
    change (processing s) with (processing (add_diagnostic self s)) in Hadm.
    change (stacks s) with (stacks (add_diagnostic self s)) in Hadm.
    by rewrite (Hsat k Hk) in Hadm. }
  assert (self_id p = self) as Hid.
  { unfold Progress_init in Hinit. rewrite Hs0 in Hinit.
    cbn [mbind outcome_mbind outcome_bind] in Hinit. rewrite Hs in Hinit.
    cbn [mbind outcome_mbind outcome_bind Progress_init_f] in Hinit.
    by injection Hinit as <-. }
  split; [done|]. split; [rewrite Hall, Hempty; set_solver|].
  unfold start. rewrite decide_True by done. rewrite stop_eq.
  split; [done|]. exists s. split; [done|]. intros Hfresh.
  cbn [fst snd add_diagnostic set_diagnostics diagnostics].
  rewrite Hid, list_remove_snoc by done. by destruct s.
Qed.

(** X11: on a tracker with pending keys, [start] reports an error exactly
    when every pending key is in [exceptions_blame], and otherwise changes
    nothing; with no pending key it reports success even though the test
    on [exceptions_blame] would hold as well. *)
Theorem start_cases (st : Progress (gset Key) * Scheduler) :
  (keys st.1 = ∅ → status (start st).1 = Some "finished"%string)
  ∧ (keys st.1 ≠ ∅ → keys st.1 ⊆ exceptions_blame st.2 →
     start st = stop (PyBool true) None st
     ∧ status (start st).1 = Some "error"%string)
  ∧ (¬ keys st.1 ⊆ exceptions_blame st.2 → start st = st).
Proof.
  destruct st as [p s]. unfold start. cbn [fst snd]. split; [|split].
  - intros ->. rewrite decide_True by done. by rewrite stop_eq.
  - intros Hne Hsub. rewrite decide_False, decide_True by done.
    split; [done|]. by rewrite stop_eq.
  - intros Hnsub. rewrite decide_False by set_solver.
    by rewrite decide_False.
Qed.

(** X12: while the tracker is registered at most once, a second [stop]
    only overwrites [status]: the outcome of two calls is that of the last
    one alone. *)
Theorem stop_twice {C} (e1 e2 : pyobj) (key1 key2 : option Key)
    (st : Progress C * Scheduler) :
  NoDup (diagnostics st.2) →
  stop e2 key2 (stop e1 key1 st) = stop e2 key2 st.
Proof.
  intros Hnd. rewrite !stop_eq. destruct st as [p s]. cbn [fst snd] in *.
  unfold set_status, set_diagnostics. simpl.
  rewrite (list_remove_absent (self_id p)
             (list_remove (self_id p) (diagnostics s)))
    by by apply list_remove_NoDup.
  done.
Qed.

(** ** The callbacks of Progress *)

Lemma deliver_all_snoc (evs : list event) (ev : event)
    (st : Progress (gset Key) * Scheduler) :
  deliver_all (evs ++ [ev]) st = deliver ev (deliver_all evs st).
Proof. unfold deliver_all. by rewrite foldl_app. Qed.

Lemma deliver_all_cons (ev : event) (evs : list event)
    (st : Progress (gset Key) * Scheduler) :
  deliver_all (ev :: evs) st = deliver_all evs (deliver ev st).
Proof. done. Qed.

Lemma set_keys_set_keys {C} (ks1 ks2 : C) (p : Progress C) :
  set_keys ks2 (set_keys ks1 p) = set_keys ks2 p.
Proof. done. Qed.

Lemma set_keys_set_status {C} (ks : C) (st : option string) (p : Progress C) :
  set_keys ks (set_status st p) = set_status st (set_keys ks p).
Proof. done. Qed.

Lemma set_status_set_status {C} (st1 st2 : option string) (p : Progress C) :
  set_status st2 (set_status st1 p) = set_status st2 p.
Proof. done. Qed.

Lemma difference_empty_subseteq (X Y : gset Key) : X ∖ Y = ∅ ↔ X ⊆ Y.
Proof.
  split.
  - intros He x Hx. destruct (decide (x ∈ Y)) as [|Hn]; [done|].
    assert (x ∈ X ∖ Y) as Hx' by set_solver. rewrite He in Hx'. set_solver.
  - set_solver.
Qed.

(** X13: however the reports of finished tasks are ordered or repeated,
    what is left pending afterwards is the pending set less the reported
    keys, and [status] becomes ['finished'] exactly when nothing is
    left. *)
Theorem task_finished_reports (evs : list event)
    (st : Progress (gset Key) * Scheduler) :
  forallb is_task_finished evs = true → evs ≠ [] →
  (deliver_all evs st).1
  = if decide (keys st.1 ⊆ list_to_set (event_key <$> evs))
    then set_status (Some "finished"%string) (set_keys ∅ st.1)
    else set_keys (keys st.1 ∖ list_to_set (event_key <$> evs)) st.1.
Proof.
  induction evs as [|ev evs IH] using rev_ind; [done|]. intros Hfin _.
  rewrite forallb_app in Hfin. apply andb_true_iff in Hfin as [Hfin Hev].
  destruct ev as [k w n|]; [|done]. clear Hev.
  rewrite deliver_all_snoc, fmap_app, list_to_set_app_L.
  change (deliver (TaskFinished k w n) (deliver_all evs st))
    with (task_finished k w n (deliver_all evs st)).
  assert (list_to_set (event_key <$> [TaskFinished k w n])
          = ({[k]} : gset Key)) as -> by set_solver.
  rewrite task_finished_eq.
  set (ks := list_to_set (event_key <$> evs) : gset Key) in *.
  assert (keys (deliver_all evs st).1 = keys st.1 ∖ ks) as Hleft.
  { destruct evs as [|ev0 evs0]; [set_solver|].
    rewrite (IH Hfin) by done. case_decide; simpl; set_solver. }
  rewrite Hleft. clearbody ks.
  assert (keys st.1 ∖ ks ∖ {[k]} = keys st.1 ∖ (ks ∪ {[k]})) as ->
    by (clear; set_solver).
  destruct (decide (keys st.1 ∖ (ks ∪ {[k]}) = ∅)) as [He|He].
  - rewrite (decide_True _ _ (proj1 (difference_empty_subseteq _ _) He)).
    rewrite stop_eq. cbn [fst snd truthy].
    rewrite He. destruct evs as [|ev0 evs0].
    + change (deliver_all [] st) with st. by destruct st as [[] ?].
    + rewrite (IH Hfin) by done. by case_decide.
  - assert (¬ keys st.1 ⊆ ks ∪ {[k]}) as Hsub
      by by rewrite <- difference_empty_subseteq.
    rewrite (decide_False _ _ Hsub). cbn [fst].
    destruct evs as [|ev0 evs0].
    + change (deliver_all [] st) with st. by destruct st as [[] ?].
    + rewrite (IH Hfin) by done. rewrite decide_False; [done|].
      clear -Hsub. set_solver.
Qed.



(** X15: once [start] has run on a fresh tracker, an active tracker
    always has pending keys, whatever callbacks follow; and as long as
    every reported failure carries a truthy exception, a finished tracker
    has none. *)
Theorem active_has_pending (st : Progress (gset Key) * Scheduler)
    (evs : list event) :
  status st.1 = None →
  (status (deliver_all evs (start st)).1 = None →
   keys (deliver_all evs (start st)).1 ≠ ∅)
  ∧ (truthy_payloads evs →
     status (deliver_all evs (start st)).1 = Some "finished"%string →
     keys (deliver_all evs (start st)).1 = ∅).
Proof.
  intros Hnone.
  assert ((status (start st).1 = None → keys (start st).1 ≠ ∅)
          ∧ (status (start st).1 = Some "finished"%string →
             keys (start st).1 = ∅)) as [Hact Hfin].
  { destruct st as [p s]. unfold start. cbn [fst snd] in Hnone.
    destruct (decide (keys p = ∅)) as [He|He]; [by rewrite stop_eq|].
    destruct (decide (keys p ⊆ exceptions_blame s)) as [Hb|Hb];
      [by rewrite stop_eq|].
    split; [done|]. cbn [fst]. by rewrite Hnone. }
  split.
  - revert Hact. generalize (start st). clear.
    induction evs as [|ev evs IH]; intros st Hact; [done|].
    rewrite deliver_all_cons. apply IH.
    destruct ev as [k w n|k w e]; cbn [deliver].
    + rewrite task_finished_eq. case_decide; [by rewrite stop_eq|done].
    + unfold task_erred. case_decide; [|done]. rewrite stop_eq. simpl.
      by destruct (truthy e).
  - revert Hfin. generalize (start st). clear.
    induction evs as [|ev evs IH]; intros st Hfin Htruthy; [done|].
    apply Forall_cons in Htruthy as [Hev Hevs].
    rewrite deliver_all_cons. apply IH; [|done].
    destruct ev as [k w n|k w e]; cbn [deliver].
    + rewrite task_finished_eq. case_decide; [by rewrite stop_eq|].
      cbn [fst status set_keys keys]. intros Hs. specialize (Hfin Hs).
      clear -Hfin. set_solver.
    + unfold task_erred. case_decide; [|done]. rewrite stop_eq. simpl.
      by rewrite Hev.
Qed.

(** X16: a report that a task finished does nothing to a tracker that
    still has pending keys without that task among them; a tracker with
    nothing pending is stopped by the report of any task at all. *)
Theorem task_finished_unrelated (k : Key) (w : worker) (n : Z)
    (st : Progress (gset Key) * Scheduler) :
  (k ∉ keys st.1 → keys st.1 ≠ ∅ → task_finished k w n st = st)
  ∧ (keys st.1 = ∅ → task_finished k w n st = stop PyNone None st).
Proof.
  destruct st as [p s]. unfold task_finished. cbn [fst snd]. split.
  - intros Hk Hne. destruct (decide (k ∈ keys p)); [done|].
    by rewrite decide_False.
  - intros He. destruct (decide (k ∈ keys p)) as [Hk|Hk].
    + rewrite He in Hk. set_solver.
    + by rewrite decide_True.
Qed.

(** ** MultiProgress *)

Section MultiProgressMore.

Context {label : Type} `{Countable label}.
Variable func : Key → outcome label.

Local Abbreviation labelled := (labelled func).
Local Abbreviation grouped_of := (grouped_of func).

Lemma groupby_from_returns (d : gmap label (list Key)) (seq : list Key) :
  (∀ k, k ∈ seq → ∃ l, func k = Returns l)
  ↔ ∃ d', groupby_from func d seq = Returns d'.
Proof.
  revert d. induction seq as [|item seq IH]; intros d; simpl.
  - split; [by eexists|]. by intros _ k Hk%elem_of_nil.
  - split.
    + intros Hall. destruct (Hall item) as [l Hl]; [by left|].
      rewrite Hl. apply IH. intros k Hk. apply Hall. by right.
    + intros [d' Hd'] k [->|Hk]%elem_of_cons.
      * destruct (func item) as [l| |]; [by eexists|done..].
      * destruct (func item) as [l| |]; [|done..].
        by apply (proj2 (IH _) (ex_intro _ d' Hd')).
Qed.

(** X17: the constructor of the grouped tracker returns exactly when the
    plain constructor returns and [func] returns on every key of
    [all_keys]; an exception of [func] on any of them makes the
    construction fail. *)
Theorem MultiProgress_init_returns (self : nat) (targets : list target)
    (scheduler default_executor : option Scheduler) (minimum dt : Q)
    (env : Env) (p : Progress (gset Key)) (s' : Scheduler) :
  Progress_init self targets scheduler default_executor minimum dt env
  = Returns (p, s') →
  (∀ k, k ∈ all_keys p → ∃ l, func k = Returns l)
  ↔ ∃ mp, MultiProgress_init func self targets scheduler default_executor
            minimum dt env = Returns (mp, s').
Proof.
  intros Hinit.
  pose proof Hinit as (_ & _ & _ & _ & _ & Hall & _ & _)%Progress_init_returns.
  unfold MultiProgress_init. rewrite Hinit.
  cbn [mbind outcome_mbind outcome_bind]. unfold regroup, groupby.
  split.
  - intros Hret.
    destruct (proj1 (groupby_from_returns ∅ (elements (keys p)))) as [gk ->].
    { intros k Hk%elem_of_elements. apply Hret. rewrite Hall. set_solver. }
    destruct (proj1 (groupby_from_returns ∅ (elements (all_keys p))))
      as [ga ->].
    { intros k Hk%elem_of_elements. by apply Hret. }
    by eexists.
  - intros [mp Hmp] k Hk%elem_of_elements.
    destruct (groupby_from func ∅ (elements (keys p))) as [gk| |]; [|done..].
    cbn [mbind outcome_mbind outcome_bind] in Hmp.
    destruct (groupby_from func ∅ (elements (all_keys p))) as [ga| |] eqn:Hga;
      [|done..].
    by apply (proj2 (groupby_from_returns ∅ _) (ex_intro _ ga Hga)).
Qed.

Lemma groupby_from_nonempty (d : gmap label (list Key)) (seq : list Key) d' :
  (∀ l ks, d !! l = Some ks → ks ≠ []) →
  groupby_from func d seq = Returns d' →
  ∀ l ks, d' !! l = Some ks → ks ≠ [].
Proof.
  revert d. induction seq as [|item seq IH]; intros d Hd; simpl.
  - by intros [= <-].
  - destruct (func item) as [l0| |]; [|done..]. apply IH.
    intros l ks. destruct (decide (l0 = l)) as [->|Hne].
    + rewrite lookup_insert_eq. intros [= <-]. by destruct (default [] (d !! l)).
    + rewrite lookup_insert_ne by done. apply Hd.
Qed.

(** X18: [MultiProgress.__init__] makes no empty bucket, and every label
    with pending keys is also a label of [all_keys]. *)
Theorem regroup_buckets (self : Progress (gset Key))
    (mp : Progress (gmap label (gset Key))) :
  regroup func self = Returns mp →
  (∀ l b, keys mp !! l = Some b → b ≠ ∅)
  ∧ (∀ l b, all_keys mp !! l = Some b → b ≠ ∅)
  ∧ (keys self ⊆ all_keys self → dom (keys mp) ⊆ dom (all_keys mp)).
Proof.
  intros Hre. pose proof (regroup_grouped_of func _ _ Hre) as Hg.
  unfold regroup, groupby in Hre.
  destruct (groupby_from func ∅ (elements (keys self))) as [gk| |] eqn:Hgk;
    [|done..].
  cbn [mbind outcome_mbind outcome_bind] in Hre.
  destruct (groupby_from func ∅ (elements (all_keys self))) as [ga| |] eqn:Hga;
    [|done..].
  injection Hre as <-. cbn [keys all_keys with_keys] in *.
  assert (∀ (d : gmap label (list Key)) l b,
            (∀ l ks, d !! l = Some ks → ks ≠ []) →
            valmap_set d !! l = Some b → b ≠ ∅) as Hne.
  { intros d l b Hd Hl. unfold valmap_set in Hl.
    apply lookup_fmap_Some in Hl as (ks & <- & Hl).
    destruct ks as [|k ks]; [by apply Hd in Hl|]. set_solver. }
  split; [|split].
  - intros l b. apply Hne.
    apply (groupby_from_nonempty ∅ (elements (keys self))); [|done].
    intros ??. by rewrite lookup_empty.
  - intros l b. apply Hne.
    apply (groupby_from_nonempty ∅ (elements (all_keys self))); [|done].
    intros ??. by rewrite lookup_empty.
  - intros Hsub l [b Hb]%elem_of_dom.
    destruct Hg as [Hkl Hkc Hal Hac _ _]. cbn [keys all_keys with_keys] in *.
    assert (b ≠ ∅) as [k Hk]%set_choose_L.
    { revert Hb. apply Hne.
      apply (groupby_from_nonempty ∅ (elements (keys self))); [|done].
      intros ??. by rewrite lookup_empty. }
    assert (k ∈ all_keys self) as (l' & b' & Hb' & Hk')%Hac.
    { apply Hsub, Hkc. by exists l, b. }
    pose proof (Hkl _ _ _ Hb Hk) as E1. pose proof (Hal _ _ _ Hb' Hk') as E2.
    assert (l' = l) as -> by congruence. apply elem_of_dom. by eexists.
Qed.

Lemma multi_deliver_labels (ev : event)
    (mp mp' : Progress (gmap label (gset Key))) (s s' : Scheduler) :
  multi_deliver func ev (mp, s) = Returns (mp', s') →
  dom (keys mp') = dom (keys mp)
  ∧ (∀ l b', keys mp' !! l = Some b' →
             ∃ b, keys mp !! l = Some b ∧ b' ⊆ b).
Proof.
  assert (∀ m : gmap label (gset Key),
            dom m = dom m ∧ ∀ l b', m !! l = Some b' →
                                    ∃ b, m !! l = Some b ∧ b' ⊆ b) as Hrefl.
  { intros m. split; [done|]. intros l b' Hl. by exists b'. }
  destruct ev as [k w n|k w e]; cbn [multi_deliver].
  - unfold multi_task_finished. destruct (func k) as [l0| |]; [|done..].
    cbn [mbind outcome_mbind outcome_bind].
    set (mp1 := match keys mp !! l0 with
                | Some b0 => if decide (b0 ≠ ∅ ∧ k ∈ b0)
                             then set_keys (<[l0 := b0 ∖ {[k]}]> (keys mp)) mp
                             else mp
                | None => mp
                end).
    assert (dom (keys mp1) = dom (keys mp)
            ∧ (∀ l b', keys mp1 !! l = Some b' →
                       ∃ b, keys mp !! l = Some b ∧ b' ⊆ b)) as Hmp1.
    { unfold mp1. destruct (keys mp !! l0) as [b0|] eqn:Hl0; [|done].
      case_decide; [|done]. cbn [keys set_keys]. split.
      - rewrite dom_insert_L. apply elem_of_dom_2 in Hl0. set_solver.
      - intros l b'. destruct (decide (l0 = l)) as [<-|Hne].
        + rewrite lookup_insert_eq. intros [= <-]. exists b0. set_solver.
        + rewrite lookup_insert_ne by done. intros Hl. by exists b'. }
    clearbody mp1.
    destruct (bool_decide (keys mp1 = ∅) || negb (any_values (keys mp1)));
      [rewrite stop_eq|]; by intros [= <- <-].
  - unfold multi_task_erred. destruct (func k) as [l0| |]; [|done..].
    cbn [mbind outcome_mbind outcome_bind fst].
    destruct (all_keys mp !! l0) as [b0|]; [case_decide|];
      [rewrite stop_eq|..]; by intros [= <- <-].
Qed.

(** X19: the callbacks of the grouped tracker keep its labels: no bucket
    is added or dropped, an emptied bucket stays under its label, and
    every bucket only ever loses keys. *)
Theorem grouped_labels_stable (evs : list event)
    (mp mp' : Progress (gmap label (gset Key))) (s s' : Scheduler) :
  multi_deliver_all func evs (mp, s) = Returns (mp', s') →
  dom (keys mp') = dom (keys mp)
  ∧ (∀ l b', keys mp' !! l = Some b' →
             ∃ b, keys mp !! l = Some b ∧ b' ⊆ b).
Proof.
  revert mp s. induction evs as [|ev evs IH]; intros mp s; simpl.
  - intros [= <- <-]. split; [done|]. intros l b' Hl. by exists b'.
  - destruct (multi_deliver func ev (mp, s)) as [[mp1 s1]| |] eqn:Hev;
      [|done..].
    intros [Hdom Hsub]%IH.
    apply multi_deliver_labels in Hev as [Hdom1 Hsub1].
    split; [congruence|]. intros l b' (b1 & Hb1 & Hb')%Hsub.
    destruct (Hsub1 _ _ Hb1) as (b & Hb & Hb1'). exists b. set_solver.
Qed.

End MultiProgressMore.

(** X20: for the grouped tracker [start] looks at the labels, not at the
    keys: it reports an error exactly when there is a label and every
    label is itself a key of [exceptions_blame].  So when all pending keys
    are blamed but some label is not, [start] sets ['error'] on the plain
    tracker and leaves the grouped tracker of the same keys active. *)
Theorem multi_start_tests_labels (p : Progress (gset Key))
    (mp : Progress (gmap string (gset Key))) (s : Scheduler) :
  (keys mp ≠ ∅ →
   (∀ l, l ∈ dom (keys mp) → KStr l ∈ exceptions_blame s) →
   status (multi_start (mp, s)).1 = Some "error"%string)
  ∧ (grouped_of key_split p mp → keys p ≠ ∅ →
     keys p ⊆ exceptions_blame s →
     (∃ l, l ∈ dom (keys mp) ∧ KStr l ∉ exceptions_blame s) →
     status (start (p, s)).1 = Some "error"%string
     ∧ multi_start (mp, s) = (mp, s)).
Proof.
  unfold multi_start. split.
  - intros Hne Hall. rewrite decide_False by done.
    rewrite decide_True; [by rewrite stop_eq|].
    intros l b Hl. apply Hall. by apply elem_of_dom_2 in Hl.
  - intros Hg Hp Hblamed (l & [b Hl]%elem_of_dom & Hnot). split.
    + unfold start. rewrite decide_False, decide_True by done.
      by rewrite stop_eq.
    + rewrite decide_False; [|by intros He; rewrite He, lookup_empty in Hl].
      rewrite decide_False; [done|]. intros Hall. by apply Hnot, (Hall l b).
Qed.

(** ** key_split *)

Lemma rsplit_hyphen_some (s name : string) :
  rsplit_hyphen s = Some name →
  has_hyphen s = true
  ∧ ∃ suffix, has_hyphen suffix = false ∧ s = name +:+ "-" +:+ suffix.
Proof.
  revert name. induction s as [|c s IH]; intros name; simpl; [done|].
  destruct (rsplit_hyphen s) as [prefix|] eqn:Hs.
  - intros [= <-]. destruct (IH prefix eq_refl) as (Hh & suffix & Hsuf & ->).
    split; [by rewrite Hh, orb_true_r|]. by exists suffix.
  - destruct (Ascii.eqb c (Ascii.ascii_of_nat 45)) eqn:Hc; [|done].
    intros [= <-]. apply Ascii.eqb_eq in Hc as ->. split; [done|].
    exists s. split; [|done].
    clear IH. induction s as [|c s IH]; simpl in *; [done|].
    destruct (rsplit_hyphen s); [done|].
    destruct (Ascii.eqb c (Ascii.ascii_of_nat 45)); [done|]. by apply IH.
Qed.

(** X21: on a string [key_split] always returns: the string itself when
    it has no hyphen, and otherwise the part before its last hyphen, so
    that the string is that part, a hyphen, and a suffix without
    hyphen. *)
Theorem key_split_string (s : string) :
  ∃ name, key_split (KStr s) = Returns name
          ∧ (has_hyphen s = false → name = s)
          ∧ (has_hyphen s = true →
             ∃ suffix, has_hyphen suffix = false
                       ∧ s = name +:+ "-" +:+ suffix).
Proof.
  simpl. destruct (rsplit_hyphen s) as [name|] eqn:Hs.
  - destruct (rsplit_hyphen_some _ _ Hs) as [Hh Hsuf].
    exists name. split; [done|]. split; [by rewrite Hh|done].
  - exists s. split; [done|]. split; [done|]. intros Hh.
    destruct (has_hyphen s) eqn:Hh'; [|done]. clear Hh. exfalso.
    induction s as [|c s IH]; simpl in *; [done|].
    destruct (rsplit_hyphen s); [done|].
    destruct (Ascii.eqb c (Ascii.ascii_of_nat 45)); [done|]. by apply IH.
Qed.

(** X22: [key_split] follows the first components of a tuple key down to
    the first value that is not a non-empty tuple.  It gives the label of
    a string found there and ['Other'] for a number or [None]; it raises,
    and then [IndexError], exactly on reaching an empty tuple. *)
Theorem key_split_first_component (k : Key) :
  ∃ n leaf, first_component n k = Some leaf
    ∧ match leaf with
      | KStr s => key_split k = key_split (KStr s)
      | KNone | KInt _ => key_split k = Returns "Other"%string
      | KTuple ks => ks = [] ∧ key_split k = Raises IndexError
      end.
Proof.
  revert k. fix IH 1. intros [|z|s|[|k0 ks]].
  - by exists 0, KNone.
  - by exists 0, (KInt z).
  - by exists 0, (KStr s).
  - by exists 0, (KTuple []).
  - destruct (IH k0) as (n & leaf & Hn & Hleaf). by exists (S n), leaf.
Qed.

(** ** format_time *)

Lemma PyFloat_divmod_returns (vx wx : float) :
  (wx =? 0)%float = false →
  ∃ q r, PyFloat.divmod vx wx = Returns (q, r).
Proof.
  intros Hw. unfold PyFloat.divmod. rewrite Hw.
  destruct (PyFloat.nonzero (PyFloat.fmod vx wx));
    [destruct (xorb _ _)|]; by eexists _, _.
Qed.

Lemma divmod_float_60 (f : float) :
  ∃ q r, divmod (NFloat f) (NInt 60) = Returns (NFloat q, NFloat r).
Proof.
  unfold divmod. cbn [mbind outcome_mbind outcome_bind].
  assert (PyFloat.of_int 60 = Returns 60%float) as -> by (by vm_compute).
  cbn [mbind outcome_mbind outcome_bind].
  destruct (PyFloat_divmod_returns f 60) as (q & r & ->); [by vm_compute|].
  by exists q, r.
Qed.

Lemma format_time_float_returns (f : float) :
  ∃ text, format_time (NFloat f) = Returns text.
Proof.
  unfold format_time.
  destruct (divmod_float_60 f) as (m & s & ->).
  cbn [mbind outcome_mbind outcome_bind].
  destruct (divmod_float_60 m) as (h & m' & ->).
  cbn [mbind outcome_mbind outcome_bind format_f].
  destruct (number_truthy (NFloat h)); [by eexists|].
  destruct (number_truthy (NFloat m')); by eexists.
Qed.

(** X23: [format_time] never raises on a float, be it negative, infinite
    or not a number; on an [int] the only exception it can raise is
    [OverflowError]. *)
Theorem format_time_exceptions (t : number) :
  match t with
  | NFloat _ => ∃ text, format_time t = Returns text
  | NInt _ => ∀ e, format_time t = Raises e → e = OverflowError
  end ∧ format_time t ≠ Blocked.
Proof.
  assert (∀ w p v e, format_f w p v = Raises e → e = OverflowError) as Hfmt.
  { intros w p [z|f] e; unfold format_f, PyFloat.of_int; [|done].
    destruct (is_infinity _); cbn [mbind outcome_mbind outcome_bind];
      [by intros [= <-]|done]. }
  assert (∀ w p v, format_f w p v ≠ Blocked) as Hfmt'.
  { intros w p [z|f]; unfold format_f, PyFloat.of_int; [|done].
    by destruct (is_infinity _). }
  destruct t as [z|f].
  - unfold format_time, divmod. change (60 =? 0)%Z with false.
    cbn [mbind outcome_mbind outcome_bind]. unfold number_truthy.
    pose proof (Hfmt 2 0 (NInt (z / 60 / 60))) as Ha.
    pose proof (Hfmt' 2 0 (NInt (z / 60 / 60))) as Ha'.
    pose proof (Hfmt 2 0 (NInt ((z / 60) mod 60))) as Hb.
    pose proof (Hfmt' 2 0 (NInt ((z / 60) mod 60))) as Hb'.
    pose proof (Hfmt 4 1 (NInt (z mod 60))) as Hc.
    pose proof (Hfmt' 4 1 (NInt (z mod 60))) as Hc'.
    destruct (format_f 2 0 (NInt (z / 60 / 60))) as [hs|ea|];
      destruct (format_f 2 0 (NInt ((z / 60) mod 60))) as [ms|eb|];
      destruct (format_f 4 1 (NInt (z mod 60))) as [ss|ec|];
      try done;
      destruct (negb (z / 60 / 60 =? 0)%Z);
      try destruct (negb ((z / 60) mod 60 =? 0)%Z);
      cbn [mbind outcome_mbind outcome_bind];
      (split; [|done]); intros e He; try discriminate He;
      injection He as <-; auto.
  - destruct (format_time_float_returns f) as [text Htext].
    split; [by exists text|]. by rewrite Htext.
Qed.

Lemma format_small_numbers :
  Forall (λ z, format_f 2 0 (NInt z) = Returns (PyFloat.pad_left 2 (pretty z))
               ∧ format_f 4 1 (NInt z)
                 = Returns (PyFloat.pad_left 4 (pretty z +:+ ".0")))
    (seqZ 0 60).
Proof. apply (bool_decide_unpack _). vm_compute. exact I. Qed.

Lemma format_hours :
  Forall (λ h, format_f 2 0 (NInt h) = Returns (PyFloat.pad_left 2 (pretty h)))
    (seqZ (-1000) 2000).
Proof. apply (bool_decide_unpack _). vm_compute. exact I. Qed.

(** X24: for a whole number of seconds between -3600000 and 3600000,
    [format_time] writes the seconds with one decimal, right-aligned in
    four characters, preceded by the minutes and the hours in two
    characters each when they are not zero; a negative duration counts its
    hours below zero and its minutes and seconds upwards. *)
Theorem format_time_whole_seconds (t : Z) :
  (-3600000 ≤ t < 3600000)%Z →
  format_time (NInt t) = Returns (clock_text t).
Proof.
  intros Ht.
  assert (-1000 ≤ t / 60 / 60 < 1000)%Z as Hh.
  { rewrite Z.div_div by lia. change (60 * 60)%Z with 3600%Z.
    split; [apply Z.div_le_lower_bound; lia|apply Z.div_lt_upper_bound; lia]. }
  assert (0 ≤ (t / 60) mod 60 < 60)%Z as Hm by (apply Z.mod_pos_bound; lia).
  assert (0 ≤ t mod 60 < 60)%Z as Hs by (apply Z.mod_pos_bound; lia).
  pose proof format_small_numbers as Hsmall.
  pose proof format_hours as Hhours.
  rewrite Forall_forall in Hsmall, Hhours.
  destruct (Hsmall ((t / 60) mod 60)%Z) as [Hm2 _];
    [apply elem_of_seqZ; lia|].
  destruct (Hsmall (t mod 60)%Z) as [_ Hs4]; [apply elem_of_seqZ; lia|].
  pose proof (Hhours (t / 60 / 60)%Z) as Hh2.
  rewrite elem_of_seqZ in Hh2. specialize (Hh2 ltac:(lia)).
  unfold format_time, divmod, clock_text.
  cbn [mbind outcome_mbind outcome_bind].
  change (60 =? 0)%Z with false. cbn [mbind outcome_mbind outcome_bind].
  unfold number_truthy.
  destruct (t / 60 / 60 =? 0)%Z eqn:Hz; cbn [negb];
    [destruct ((t / 60) mod 60 =? 0)%Z eqn:Hz'; cbn [negb]|].
  - by rewrite Hs4.
  - by rewrite Hm2, Hs4.
  - by rewrite Hh2, Hm2, Hs4.
Qed.

(** ** The text progress bar *)

Lemma elem_of_progress_pairs (most ndone ntasks : Z) :
  (1 ≤ ntasks ≤ most)%Z → (0 ≤ ndone ≤ ntasks)%Z →
  (ndone, ntasks) ∈ progress_pairs most.
Proof.
  intros Hn Hd. unfold progress_pairs. apply list_elem_of_bind.
  exists ntasks. split; [|apply elem_of_seqZ; lia].
  apply list_elem_of_bind. exists ndone. split; [by left|].
  apply elem_of_seqZ. lia.
Qed.

Lemma bar_numbers_table :
  forallb (bar_numbers_sound 40) (progress_pairs 200) = true.
Proof. vm_compute. reflexivity. Qed.

Lemma fraction_table : forallb fraction_sound (progress_pairs 200) = true.
Proof. vm_compute. reflexivity. Qed.

Lemma concat_empty_cons (x : string) (l : list string) :
  String.concat "" (x :: l) = (x +:+ String.concat "" l)%string.
Proof.
  destruct l as [|y l]; [|done].
  cbn [String.concat]. induction x as [|c x IH]; [done|].
  change (String c x +:+ "") with (String c (x +:+ "")). by rewrite <- IH.
Qed.

Lemma str_times_length (s : string) (n : Z) :
  String.length s = 1 → String.length (str_times s n) = Z.to_nat n.
Proof.
  intros Hs. unfold str_times.
  induction (Z.to_nat n) as [|m IH]; [done|].
  change (replicate (S m) s) with (s :: replicate m s).
  rewrite concat_empty_cons.
  destruct s as [|c [|c' s]]; try done.
  change (S (String.length (String.concat "" (replicate m (String c ""))))
          = S m).
  by rewrite IH.
Qed.

Lemma size_zero_empty (X : gset Key) : size X = 0 ↔ X = ∅.
Proof. rewrite size_empty_iff. apply leibniz_equiv_iff. Qed.

Lemma progress_counts (self : Progress (gset Key)) :
  keys self ⊆ all_keys self →
  (0 ≤ Z.of_nat (size (all_keys self)) - Z.of_nat (size (keys self))
     ≤ Z.of_nat (size (all_keys self)))%Z
  ∧ ((Z.of_nat (size (all_keys self)) - Z.of_nat (size (keys self)))%Z
     = Z.of_nat (size (all_keys self)) ↔ keys self = ∅)
  ∧ ((Z.of_nat (size (all_keys self)) - Z.of_nat (size (keys self)))%Z = 0%Z
     ↔ keys self = all_keys self).
Proof.
  intros Hsub. pose proof (subseteq_size _ _ Hsub) as Hle.
  split; [lia|]. split.
  - rewrite <- (size_zero_empty (keys self)). lia.
  - split.
    + intros Hz. apply set_subseteq_size_eq; [done|]. lia.
    + intros ->. lia.
Qed.

(** X25: with the default width of 40 and at most 200 tasks,
    [TextProgressBar._update] always produces a line: a carriage return,
    the bar of forty cells between brackets, the percentage and the
    elapsed time as [format_time] writes it.  The filled cells and the
    percentage never overstate the share of tasks done and fall short of it
    by less than two units, and the bar is full, and the percentage 100,
    exactly when no key is pending. *)
Theorem text_bar_line (self : Progress (gset Key)) (elapsed : float) :
  keys self ⊆ all_keys self → size (all_keys self) ≤ 200 →
  ∃ (filled percent : Z) (text : string),
    format_time (NFloat elapsed) = Returns text
    ∧ TextProgressBar_update 40 self elapsed
      = Returns (carriage_return +:+ "["
                 +:+ (str_times "#" filled +:+ str_times " " (40 - filled))
                 +:+ "] | " +:+ pretty percent +:+ "% Completed | " +:+ text)
    ∧ (0 ≤ filled ≤ 40)%Z ∧ (0 ≤ percent ≤ 100)%Z
    ∧ (filled = 40%Z ↔ keys self = ∅)
    ∧ (percent = 100%Z ↔ keys self = ∅)
    ∧ (filled * Z.of_nat (size (all_keys self))
       ≤ 40 * Z.of_nat (size (all_keys self ∖ keys self)))%Z
    ∧ (percent * Z.of_nat (size (all_keys self))
       ≤ 100 * Z.of_nat (size (all_keys self ∖ keys self)))%Z
    ∧ (all_keys self ≠ ∅ →
       (40 * Z.of_nat (size (all_keys self ∖ keys self))
        < (filled + 2) * Z.of_nat (size (all_keys self)))%Z
       ∧ (100 * Z.of_nat (size (all_keys self ∖ keys self))
          < (percent + 2) * Z.of_nat (size (all_keys self)))%Z).
Proof.
  intros Hsub Hmost.
  destruct (progress_counts self Hsub) as (Hrange & Hfull & _).
  assert (Z.of_nat (size (all_keys self ∖ keys self))
          = Z.of_nat (size (all_keys self)) - Z.of_nat (size (keys self)))%Z
    as Hdone.
  { rewrite size_difference by done. pose proof (subseteq_size _ _ Hsub). lia. }
  rewrite Hdone.
  set (ntasks := Z.of_nat (size (all_keys self))) in *.
  set (ndone := (ntasks - Z.of_nat (size (keys self)))%Z) in *.
  destruct (format_time_float_returns elapsed) as [text Htext].
  assert (∃ filled percent,
            bar_numbers 40 ndone ntasks = Returns (filled, percent)
            ∧ (0 ≤ filled ≤ 40)%Z ∧ (0 ≤ percent ≤ 100)%Z
            ∧ (filled = 40%Z ↔ ndone = ntasks)
            ∧ (percent = 100%Z ↔ ndone = ntasks)
            ∧ (filled * ntasks ≤ 40 * ndone)%Z
            ∧ (percent * ntasks ≤ 100 * ndone)%Z
            ∧ (ntasks ≠ 0%Z → (40 * ndone < (filled + 2) * ntasks)%Z
                              ∧ (100 * ndone < (percent + 2) * ntasks)%Z))
    as (filled & percent & Hnum & Hf & Hp & Hf40 & Hp100 & Hfle & Hple & Hlow).
  { destruct (decide (ntasks = 0%Z)) as [Hz|Hnz].
    - assert (ndone = 0%Z) as -> by lia. rewrite Hz.
      exists 40%Z, 100%Z. split; [by vm_compute|]. lia.
    - pose proof bar_numbers_table as Htable.
      rewrite forallb_forall in Htable.
      specialize (Htable (ndone, ntasks)).
      unfold bar_numbers_sound in Htable. cbn [fst snd] in Htable.
      destruct (bar_numbers 40 ndone ntasks) as [[filled percent]| |].
      2,3: exfalso; apply Bool.diff_false_true, Htable, list_elem_of_In,
             elem_of_progress_pairs; lia.
      exists filled, percent. split; [done|].
      specialize (Htable ltac:(apply list_elem_of_In, elem_of_progress_pairs;
                               lia)).
      repeat (apply andb_true_iff in Htable as [Htable ?]).
      repeat match goal with
             | H : Bool.eqb _ _ = true |- _ => apply Bool.eqb_prop in H
             end.
      destruct (Z.eqb_spec ndone ntasks); lia. }
  exists filled, percent, text. split; [done|].
  split; [|rewrite <- Hfull; do 6 (split; [assumption|]);
           intros Hne; apply Hlow; unfold ntasks; intros Hz;
           apply Hne, size_zero_empty; lia].
  unfold TextProgressBar_update, fraction_done, _draw_bar.
  fold ntasks. fold ndone. rewrite Htext.
  unfold bar_numbers in Hnum.
  destruct (if (ntasks =? 0)%Z then Returns 1%float
            else int_true_divide ndone ntasks) as [frac| |]; [|done..].
  cbn [mbind outcome_mbind outcome_bind] in *.
  destruct (int_times_float 40 frac) as [x| |]; [|done..].
  cbn [mbind outcome_mbind outcome_bind] in *.
  destruct (float_to_int x) as [filled'| |]; [|done..].
  cbn [mbind outcome_mbind outcome_bind] in *.
  destruct (int_times_float 100 frac) as [y| |]; [|done..].
  cbn [mbind outcome_mbind outcome_bind] in *.
  destruct (float_to_int y) as [percent'| |]; [|done..].
  cbn [mbind outcome_mbind outcome_bind] in *.
  injection Hnum as -> ->. unfold format_left.
  change (40 <? 0)%Z with false. cbn [mbind outcome_mbind outcome_bind].
  rewrite str_times_length by done. by rewrite Z2Nat.id by lia.
Qed.

(** X26: with at most 200 tasks, [ProgressWidget._update] sets the bar to
    a value between 0 and 1, which is 1 exactly when no key is pending and
    0 exactly when all are, and its description to the elapsed time as
    [format_time] writes it. *)
Theorem widget_bar_value (self : Progress (gset Key)) (elapsed : float) :
  keys self ⊆ all_keys self → size (all_keys self) ≤ 200 →
  ∃ (value : float) (description : string),
    ProgressWidget_update self elapsed = Returns (value, description)
    ∧ format_time (NFloat elapsed) = Returns description
    ∧ (0 <=? value)%float = true ∧ (value <=? 1)%float = true
    ∧ ((value =? 1)%float = true ↔ keys self = ∅)
    ∧ (all_keys self ≠ ∅ →
       ((value =? 0)%float = true ↔ keys self = all_keys self)).
Proof.
  intros Hsub Hmost.
  destruct (progress_counts self Hsub) as (Hrange & Hfull & Hnone).
  destruct (format_time_float_returns elapsed) as [text Htext].
  unfold ProgressWidget_update, fraction_done. rewrite Htext.
  set (ntasks := Z.of_nat (size (all_keys self))) in *.
  set (ndone := (ntasks - Z.of_nat (size (keys self)))%Z) in *.
  destruct (Z.eqb_spec ntasks 0) as [Hz|Hnz].
  - exists 1%float, text. cbn [mbind outcome_mbind outcome_bind].
    split; [done|]. split; [done|]. split; [done|]. split; [done|].
    split.
    + split; [|done]. intros _. apply Hfull. lia.
    + intros Hne. exfalso. apply Hne.
      apply (size_zero_empty (all_keys self)). unfold ntasks in Hz. lia.
  - pose proof fraction_table as Htable. rewrite forallb_forall in Htable.
    specialize (Htable (ndone, ntasks)
                  ltac:(apply list_elem_of_In, elem_of_progress_pairs; lia)).
    unfold fraction_sound in Htable. cbn [fst snd] in Htable.
    destruct (int_true_divide ndone ntasks) as [value| |]; [|done..].
    repeat (apply andb_true_iff in Htable as [Htable ?]).
    repeat match goal with
           | H : Bool.eqb _ _ = true |- _ => apply Bool.eqb_prop in H
           end.
    exists value, text. cbn [mbind outcome_mbind outcome_bind].
    repeat split; try done.
    + intros Hv. apply Hfull. destruct (Z.eqb_spec ndone ntasks); [done|].
      congruence.
    + intros Hk%Hfull. destruct (Z.eqb_spec ndone ntasks); [|done].
      congruence.
    + intros Hv. apply Hnone. destruct (Z.eqb_spec ndone 0); [done|].
      congruence.
    + intros Hk%Hnone. destruct (Z.eqb_spec ndone 0); [|done]. congruence.
Qed.

(** ** Instances on the scenarios *)

Lemma dependent_keys_leaves_witness :
  (∀ k, k ∈ [KStr "b"; KStr "a"] → dependencies_get c_needs_b k = [])
  ∧ dependent_keys held_b ∅ ∅ c_needs_b [KStr "b"; KStr "a"] false
    = list_to_set (filter (λ k, admissible held_b ∅ ∅ false k = true)
                     [KStr "b"; KStr "a"]).
Proof.
  assert (∀ k, k ∈ [KStr "b"; KStr "a"] → dependencies_get c_needs_b k = [])
    as Hleaf.
  { intros k Hk. apply elem_of_cons in Hk as [->|Hk]; [reflexivity|].
    apply elem_of_cons in Hk as [->|Hk]; [reflexivity|].
    by apply elem_of_nil in Hk. }
  split; [exact Hleaf|].
  exact (dependent_keys_leaves held_b ∅ ∅ c_needs_b [KStr "b"; KStr "a"]
           false Hleaf).
Defined.

Lemma dependent_keys_order_irrelevant_witness :
  (∀ x, x ∈ [KStr "c"; KStr "a"; KStr "c"] ↔ x ∈ [KStr "a"; KStr "c"])
  ∧ (∀ x y, y ∈ dependencies_get c_needs_b x
            ↔ y ∈ dependencies_get c_needs_b_twice x)
  ∧ dependent_keys held_b ∅ ∅ c_needs_b [KStr "c"; KStr "a"; KStr "c"] false
    = dependent_keys held_b ∅ ∅ c_needs_b_twice [KStr "a"; KStr "c"] false.
Proof.
  assert (∀ x, x ∈ [KStr "c"; KStr "a"; KStr "c"] ↔ x ∈ [KStr "a"; KStr "c"])
    as Hkeys.
  { intros x. rewrite !elem_of_cons, !elem_of_nil. tauto. }
  assert (∀ x y, y ∈ dependencies_get c_needs_b x
                 ↔ y ∈ dependencies_get c_needs_b_twice x) as Hdeps.
  { intros x y. unfold dependencies_get, c_needs_b, c_needs_b_twice.
    destruct (decide (x = KStr "c")) as [->|Hne].
    - rewrite !lookup_singleton_eq. simpl.
      rewrite !elem_of_cons, !elem_of_nil. tauto.
    - by rewrite !lookup_singleton_ne. }
  split; [exact Hkeys|]. split; [exact Hdeps|].
  exact (dependent_keys_order_irrelevant held_b ∅ ∅ c_needs_b c_needs_b_twice
           [KStr "c"; KStr "a"; KStr "c"] [KStr "a"; KStr "c"] false
           Hkeys Hdeps).
Defined.

Lemma Progress_init_failures_witness :
  Progress_init 7 [Bare (KStr "x"); Bare (KStr "y")] (Some scattered_scheduler)
    None 0%Q (1 # 10)%Q one_second_wait
  = Raises (ValueError_keys_not_found {[ KStr "y" ]})
  ∧ ((Some scattered_scheduler = None ∧ (None : option Scheduler) = None
      ∧ ValueError_keys_not_found {[ KStr "y" ]} = ValueError_no_scheduler)
     ∨ ∃ now s', (now, s') ∈ polls one_second_wait
                 ∧ (time_start one_second_wait + 1 < now)%Q
                 ∧ ValueError_keys_not_found {[ KStr "y" ]}
                   = ValueError_keys_not_found
                       (list_to_set (target_key <$> [Bare (KStr "x");
                                                     Bare (KStr "y")])
                        ∖ in_play s')).
Proof.
  assert (Progress_init 7 [Bare (KStr "x"); Bare (KStr "y")]
            (Some scattered_scheduler) None 0%Q (1 # 10)%Q one_second_wait
          = Raises (ValueError_keys_not_found {[ KStr "y" ]})) as Hinit.
  { apply (bool_decide_unpack _). vm_compute. exact I. }
  split; [exact Hinit|].
  exact (Progress_init_failures 7 [Bare (KStr "x"); Bare (KStr "y")]
           (Some scattered_scheduler) None 0%Q (1 # 10)%Q one_second_wait
           _ Hinit).
Defined.

Lemma Progress_init_immediate_witness :
  list_to_set (target_key <$> [Bare (KStr "c")]) ⊆ dask chain_scheduler
  ∧ ∃ p, Progress_init 7 [Bare (KStr "c")] (Some chain_scheduler) None
           0%Q (1 # 10)%Q one_second_wait
         = Returns (p, add_diagnostic 7 chain_scheduler)
         ∧ status p = None ∧ self_id p = 7
         ∧ _start_time p = timer_start one_second_wait ∧ _running p = false.
Proof.
  assert (list_to_set (target_key <$> [Bare (KStr "c")]) ⊆ dask chain_scheduler)
    as Hks.
  { apply (bool_decide_unpack _). vm_compute. exact I. }
  split; [exact Hks|].
  exact (Progress_init_immediate 7 [Bare (KStr "c")] chain_scheduler None
           0%Q (1 # 10)%Q one_second_wait Hks).
Defined.

Lemma wait_for_keys_within_budget_witness :
  wait_for_keys {[ KStr "a" ]} 100%Q scattered_scheduler
    [((10001 # 100)%Q, scattered_scheduler); ((1005 # 10)%Q, chain_scheduler)]
  = Returns chain_scheduler
  ∧ {[ KStr "a" ]} ⊆ dask chain_scheduler
  ∧ (chain_scheduler = scattered_scheduler
     ∨ ∃ now, (now, chain_scheduler)
              ∈ [((10001 # 100)%Q, scattered_scheduler);
                 ((1005 # 10)%Q, chain_scheduler)]
              ∧ (now <= 100 + 1)%Q).
Proof.
  assert (wait_for_keys {[ KStr "a" ]} 100%Q scattered_scheduler
            [((10001 # 100)%Q, scattered_scheduler);
             ((1005 # 10)%Q, chain_scheduler)]
          = Returns chain_scheduler) as Hwait.
  { apply (bool_decide_unpack _). vm_compute. exact I. }
  split; [exact Hwait|].
  exact (wait_for_keys_within_budget _ _ _ _ _ Hwait).
Defined.

Lemma start_after_satisfied_construction_witness :
  Progress_init 7 [Bare (KStr "x")] (Some computed_scheduler) None
    0%Q (1 # 10)%Q no_wait = Returns computed_tracker
  ∧ (∀ k, k ∈ target_key <$> [Bare (KStr "x")] →
          satisfied (who_has computed_tracker.2) (processing computed_tracker.2)
            (stacks computed_tracker.2) k = true)
  ∧ keys computed_tracker.1 = ∅
  ∧ status (start computed_tracker).1 = Some "finished"%string.
Proof.
  assert (Progress_init 7 [Bare (KStr "x")] (Some computed_scheduler) None
            0%Q (1 # 10)%Q no_wait = Returns computed_tracker) as Hinit.
  { apply (bool_decide_unpack _). vm_compute. exact I. }
  assert (∀ k, k ∈ target_key <$> [Bare (KStr "x")] →
               satisfied (who_has computed_tracker.2)
                 (processing computed_tracker.2)
                 (stacks computed_tracker.2) k = true) as Hsat.
  { intros k Hk. change (k ∈ [KStr "x"]) in Hk.
    rewrite list_elem_of_singleton in Hk. rewrite Hk. reflexivity. }
  split; [exact Hinit|]. split; [exact Hsat|].
  destruct (start_after_satisfied_construction 7 [Bare (KStr "x")]
              (Some computed_scheduler) None 0%Q (1 # 10)%Q no_wait
              computed_tracker.1 computed_tracker.2 Hinit Hsat)
    as (Hkeys & _ & Hstatus & _).
  split; [exact Hkeys|exact Hstatus].
Defined.

Lemma stop_twice_witness :
  NoDup (diagnostics chain_tracker.2)
  ∧ stop PyNone None (stop (PyException "boom") (Some (KStr "b")) chain_tracker)
    = stop PyNone None chain_tracker.
Proof.
  assert (NoDup (diagnostics chain_tracker.2)) as Hnd.
  { apply (bool_decide_unpack _). vm_compute. exact I. }
  split; [exact Hnd|].
  exact (stop_twice (PyException "boom") PyNone (Some (KStr "b")) None
           chain_tracker Hnd).
Defined.

Lemma task_finished_reports_witness :
  forallb is_task_finished [TaskFinished (KStr "b") "w1" 8;
                            TaskFinished (KStr "a") "w2" 8;
                            TaskFinished (KStr "b") "w1" 8] = true
  ∧ [TaskFinished (KStr "b") "w1" 8; TaskFinished (KStr "a") "w2" 8;
     TaskFinished (KStr "b") "w1" 8] ≠ []
  ∧ (deliver_all [TaskFinished (KStr "b") "w1" 8;
                  TaskFinished (KStr "a") "w2" 8;
                  TaskFinished (KStr "b") "w1" 8] chain_tracker).1
    = if decide (keys chain_tracker.1
                 ⊆ list_to_set (event_key <$>
                     [TaskFinished (KStr "b") "w1" 8;
                      TaskFinished (KStr "a") "w2" 8;
                      TaskFinished (KStr "b") "w1" 8]))
      then set_status (Some "finished"%string) (set_keys ∅ chain_tracker.1)
      else set_keys (keys chain_tracker.1
                     ∖ list_to_set (event_key <$>
                         [TaskFinished (KStr "b") "w1" 8;
                          TaskFinished (KStr "a") "w2" 8;
                          TaskFinished (KStr "b") "w1" 8])) chain_tracker.1.
Proof.
  assert ([TaskFinished (KStr "b") "w1" 8; TaskFinished (KStr "a") "w2" 8;
           TaskFinished (KStr "b") "w1" 8] ≠ []) as Hne by discriminate.
  split; [reflexivity|]. split; [exact Hne|].
  exact (task_finished_reports
           [TaskFinished (KStr "b") "w1" 8; TaskFinished (KStr "a") "w2" 8;
            TaskFinished (KStr "b") "w1" 8] chain_tracker eq_refl Hne).
Defined.

Lemma active_has_pending_witness :
  status chain_tracker.1 = None
  ∧ (status (deliver_all [TaskFinished (KStr "a") "w1" 8]
               (start chain_tracker)).1 = None →
     keys (deliver_all [TaskFinished (KStr "a") "w1" 8]
             (start chain_tracker)).1 ≠ ∅).
Proof.
  split; [reflexivity|].
  exact (proj1 (active_has_pending chain_tracker
                  [TaskFinished (KStr "a") "w1" 8] eq_refl)).
Defined.

Lemma MultiProgress_init_returns_witness :
  Progress_init 7 xy_targets (Some xy_scheduler) None 0%Q (1 # 10)%Q no_wait
  = Returns (xy_ungrouped, set_diagnostics [7] xy_scheduler)
  ∧ ((∀ k, k ∈ all_keys xy_ungrouped → ∃ l, key_split k = Returns l)
     ↔ ∃ mp, MultiProgress_init key_split 7 xy_targets (Some xy_scheduler)
               None 0%Q (1 # 10)%Q no_wait
             = Returns (mp, set_diagnostics [7] xy_scheduler)).
Proof.
  assert (Progress_init 7 xy_targets (Some xy_scheduler) None 0%Q (1 # 10)%Q
            no_wait
          = Returns (xy_ungrouped, set_diagnostics [7] xy_scheduler)) as Hinit.
  { apply (bool_decide_unpack _). vm_compute. exact I. }
  split; [exact Hinit|].
  exact (MultiProgress_init_returns key_split 7 xy_targets (Some xy_scheduler)
           None 0%Q (1 # 10)%Q no_wait xy_ungrouped _ Hinit).
Defined.

Lemma regroup_buckets_witness :
  regroup key_split xy_ungrouped = Returns xy_tracker.1
  ∧ (∀ l b, keys xy_tracker.1 !! l = Some b → b ≠ ∅)
  ∧ (∀ l b, all_keys xy_tracker.1 !! l = Some b → b ≠ ∅).
Proof.
  assert (regroup key_split xy_ungrouped = Returns xy_tracker.1) as Hre.
  { apply (bool_decide_unpack _). vm_compute. exact I. }
  split; [exact Hre|].
  destruct (regroup_buckets key_split xy_ungrouped xy_tracker.1 Hre)
    as (Hkeys & Hall & _).
  split; [exact Hkeys|exact Hall].
Defined.

Lemma grouped_labels_stable_witness :
  multi_deliver_all key_split [TaskFinished (KStr "x-1") "w1" 8] xy_tracker
  = Returns xy_after_x1
  ∧ dom (keys xy_after_x1.1) = dom (keys xy_tracker.1).
Proof.
  assert (multi_deliver_all key_split [TaskFinished (KStr "x-1") "w1" 8]
            xy_tracker = Returns xy_after_x1) as Hev.
  { apply (bool_decide_unpack _). vm_compute. exact I. }
  split; [exact Hev|].
  exact (proj1 (grouped_labels_stable key_split
                  [TaskFinished (KStr "x-1") "w1" 8]
                  xy_tracker.1 xy_after_x1.1 xy_tracker.2 xy_after_x1.2 Hev)).
Defined.

Lemma format_time_whole_seconds_witness :
  (-3600000 ≤ 3661 < 3600000)%Z
  ∧ format_time (NInt 3661) = Returns (clock_text 3661).
Proof.
  assert (-3600000 ≤ 3661 < 3600000)%Z as Ht by lia.
  split; [exact Ht|]. exact (format_time_whole_seconds 3661 Ht).
Defined.

Lemma text_bar_line_witness :
  keys (task_finished (KStr "a") "w1" 8 chain_tracker).1
  ⊆ all_keys (task_finished (KStr "a") "w1" 8 chain_tracker).1
  ∧ size (all_keys (task_finished (KStr "a") "w1" 8 chain_tracker).1) ≤ 200
  ∧ ∃ (filled percent : Z) (text : string),
      format_time (NFloat 1.5%float) = Returns text
      ∧ TextProgressBar_update 40
          (task_finished (KStr "a") "w1" 8 chain_tracker).1 1.5%float
        = Returns (carriage_return +:+ "["
                   +:+ (str_times "#" filled +:+ str_times " " (40 - filled))
                   +:+ "] | " +:+ pretty percent +:+ "% Completed | " +:+ text)
      ∧ (0 ≤ filled ≤ 40)%Z ∧ (0 ≤ percent ≤ 100)%Z.
Proof.
  assert (keys (task_finished (KStr "a") "w1" 8 chain_tracker).1
          ⊆ all_keys (task_finished (KStr "a") "w1" 8 chain_tracker).1)
    as Hsub.
  { apply (bool_decide_unpack _). vm_compute. exact I. }
  assert (size (all_keys (task_finished (KStr "a") "w1" 8 chain_tracker).1)
          ≤ 200) as Hmost.
  { apply (bool_decide_unpack _). vm_compute. exact I. }
  split; [exact Hsub|]. split; [exact Hmost|].
  destruct (text_bar_line (task_finished (KStr "a") "w1" 8 chain_tracker).1
              1.5%float Hsub Hmost)
    as (filled & percent & text & Htext & Hline & Hf & Hp & _).
  exists filled, percent, text.
  split; [exact Htext|]. split; [exact Hline|]. split; [exact Hf|exact Hp].
Defined.

Lemma widget_bar_value_witness :
  keys (task_finished (KStr "a") "w1" 8 chain_tracker).1
  ⊆ all_keys (task_finished (KStr "a") "w1" 8 chain_tracker).1
  ∧ size (all_keys (task_finished (KStr "a") "w1" 8 chain_tracker).1) ≤ 200
  ∧ ∃ (value : float) (description : string),
      ProgressWidget_update
        (task_finished (KStr "a") "w1" 8 chain_tracker).1 1.5%float
      = Returns (value, description)
      ∧ (0 <=? value)%float = true ∧ (value <=? 1)%float = true.
Proof.
  assert (keys (task_finished (KStr "a") "w1" 8 chain_tracker).1
          ⊆ all_keys (task_finished (KStr "a") "w1" 8 chain_tracker).1)
    as Hsub.
  { apply (bool_decide_unpack _). vm_compute. exact I. }
  assert (size (all_keys (task_finished (KStr "a") "w1" 8 chain_tracker).1)
          ≤ 200) as Hmost.
  { apply (bool_decide_unpack _). vm_compute. exact I. }
  split; [exact Hsub|]. split; [exact Hmost|].
  destruct (widget_bar_value (task_finished (KStr "a") "w1" 8 chain_tracker).1
              1.5%float Hsub Hmost)
    as (value & description & Hupd & _ & Hlo & Hhi & _).
  exists value, description.
  split; [exact Hupd|]. split; [exact Hlo|exact Hhi].
Defined.

Lemma start_cases_witness :
  keys xy_ungrouped ≠ ∅
  ∧ keys xy_ungrouped ⊆ exceptions_blame blamed_scheduler
  ∧ status (start (xy_ungrouped, blamed_scheduler)).1 = Some "error"%string.
Proof.
  assert (keys xy_ungrouped ≠ ∅) as Hne.
  { apply (bool_decide_unpack _). vm_compute. exact I. }
  assert (keys xy_ungrouped ⊆ exceptions_blame blamed_scheduler) as Hsub.
  { apply (bool_decide_unpack _). vm_compute. exact I. }
  split; [exact Hne|]. split; [exact Hsub|].
  exact (proj2 (proj1 (proj2 (start_cases (xy_ungrouped, blamed_scheduler)))
                  Hne Hsub)).
Defined.

Lemma task_finished_unrelated_witness :
  (KStr "z" ∉ keys chain_tracker.1)
  ∧ keys chain_tracker.1 ≠ ∅
  ∧ task_finished (KStr "z") "w1" 8 chain_tracker = chain_tracker.
Proof.
  assert (KStr "z" ∉ keys chain_tracker.1) as Hz.
  { apply (bool_decide_unpack _). vm_compute. exact I. }
  assert (keys chain_tracker.1 ≠ ∅) as Hne.
  { apply (bool_decide_unpack _). vm_compute. exact I. }
  split; [exact Hz|]. split; [exact Hne|].
  exact (proj1 (task_finished_unrelated (KStr "z") "w1" 8 chain_tracker)
           Hz Hne).
Defined.

Lemma multi_start_tests_labels_witness :
  grouped_of key_split xy_ungrouped xy_tracker.1
  ∧ keys xy_ungrouped ≠ ∅
  ∧ keys xy_ungrouped ⊆ exceptions_blame blamed_scheduler
  ∧ (∃ l, l ∈ dom (keys xy_tracker.1)
          ∧ KStr l ∉ exceptions_blame blamed_scheduler)
  ∧ status (start (xy_ungrouped, blamed_scheduler)).1 = Some "error"%string
  ∧ multi_start (xy_tracker.1, blamed_scheduler)
    = (xy_tracker.1, blamed_scheduler).
Proof.
  assert (grouped_of key_split xy_ungrouped xy_tracker.1) as Hg.
  { apply regroup_grouped_of. apply (bool_decide_unpack _). vm_compute.
    exact I. }
  assert (keys xy_ungrouped ≠ ∅) as Hne.
  { apply (bool_decide_unpack _). vm_compute. exact I. }
  assert (keys xy_ungrouped ⊆ exceptions_blame blamed_scheduler) as Hsub.
  { apply (bool_decide_unpack _). vm_compute. exact I. }
  assert (∃ l, l ∈ dom (keys xy_tracker.1)
               ∧ KStr l ∉ exceptions_blame blamed_scheduler) as Hlabel.
  { exists "x"%string.
    split; apply (bool_decide_unpack _); vm_compute; exact I. }
  split; [exact Hg|]. split; [exact Hne|]. split; [exact Hsub|].
  split; [exact Hlabel|].
  exact (proj2 (multi_start_tests_labels xy_ungrouped xy_tracker.1
                  blamed_scheduler) Hg Hne Hsub Hlabel).
Defined.

Lemma key_split_string_witness :
  has_hyphen "x-1-2" = true
  ∧ ∃ name, key_split (KStr "x-1-2") = Returns name
            ∧ ∃ suffix, has_hyphen suffix = false
                        ∧ "x-1-2"%string = name +:+ "-" +:+ suffix.
Proof.
  split; [reflexivity|].
  destruct (key_split_string "x-1-2") as (name & Hname & _ & Hsuffix).
  exists name. split; [exact Hname|]. exact (Hsuffix eq_refl).
Defined.
